(** * Reciprocal Rank Fusion: a shallow embedding of the two fusers

    Sources embedded here:
    - [src/server/py/rag_fusion.py], function [reciprocal_rank_fusion]
      (returns (document, score) pairs);
    - [src/server/py/reciprocal_rank_fusion.py], functions
      [reciprocal_rank_fusion] (returns documents only) and [main].

    Python values are modelled as the code uses them: the dict
    [fused_scores] is an insertion-ordered association list with string
    keys, exceptions are an explicit error result, [sorted(..., key=...,
    reverse=True)] is a stable descending sort that only ever asks [<],
    and the serializer pair [dumps]/[loads] of langchain is a pair of
    section variables. *)

From Stdlib Require Import List ZArith QArith String Ascii Bool Lia.
From Stdlib Require Import Permutation Sorted Floats Uint63.
Import ListNotations.

Local Open Scope string_scope.
Local Open Scope list_scope.

(** ** Exceptions and fallible results *)

Inductive exn : Type :=
| ZeroDivisionError
| KeyError
| TypeError
| ValueError (msg : string).

Inductive result (A : Type) : Type :=
| Ok (a : A)
| Raise (e : exn).

Arguments Ok {A} a.
Arguments Raise {A} e.

Definition bind {A B : Type} (c : result A) (f : A -> result B) : result B :=
  match c with
  | Ok a => f a
  | Raise e => Raise e
  end.

Definition fmap {A B : Type} (f : A -> B) (c : result A) : result B :=
  bind c (fun a => Ok (f a)).

Notation "x <- c ;; f" := (bind c (fun x => f))
  (at level 61, c at next level, right associativity).

(** ** Score arithmetic

    The scores are Python numbers: the entry starts as the int [0] and
    receives [1 / (rank + k)], a true division of two ints.  The fusers
    use exactly four operations on them, gathered in this interface.
    [s_recip n] is [1 / n] for a non-zero int [n]; [s_lt] is the [<]
    that [sorted] asks of the sort keys. *)

Class Arith (score : Type) : Type := {
  s_zero : score;
  s_add : score -> score -> score;
  s_recip : Z -> score;
  s_lt : score -> score -> bool
}.

(** [x >= y] as the sort sees it: [x < y] does not hold. *)
Definition s_ge {score : Type} {A : Arith score} (x y : score) : bool :=
  negb (s_lt x y).

(** Exact rational arithmetic: the real-number reading of the scores. *)
Definition Qltb (x y : Q) : bool :=
  (Qnum x * QDen y <? Qnum y * QDen x)%Z.

#[export] Instance Q_arith : Arith Q := {
  s_zero := 0%Q;
  s_add := Qplus;
  s_recip := fun n => (1 / inject_Z n)%Q;
  s_lt := Qltb
}.

(** IEEE 754 binary64 arithmetic: what CPython computes.  The quotient
    [1 / n] of two ints is correctly rounded, which for [|n| < 2^53]
    is the float division of [1.0] by the float [n]. *)
Definition float_of_Z (n : Z) : float :=
  match n with
  | Z0 => 0%float
  | Zpos _ => PrimFloat.of_uint63 (Uint63.of_Z n)
  | Zneg _ => PrimFloat.opp (PrimFloat.of_uint63 (Uint63.of_Z (- n)))
  end.

#[export] Instance float_arith : Arith float := {
  s_zero := 0%float;
  s_add := PrimFloat.add;
  s_recip := fun n => PrimFloat.div 1%float (float_of_Z n);
  s_lt := PrimFloat.ltb
}.

(** What some of the proofs ask of an arithmetic; the rationals satisfy
    all three. *)
Definition lt_asymmetric {score : Type} (A : Arith score) : Prop :=
  forall x y, s_lt x y = true -> s_lt y x = false.



(** ** The dict [fused_scores]: string keys, insertion order kept *)

Section Dict.
Context {V : Type}.

Definition dict : Type := list (string * V).

(** [d[key]], [None] standing for the KeyError. *)
Fixpoint dict_get (key : string) (d : dict) : option V :=
  match d with
  | [] => None
  | (key', v) :: d' =>
      if String.eqb key key' then Some v else dict_get key d'
  end.

(** [key in d] *)
Definition dict_mem (key : string) (d : dict) : bool :=
  match dict_get key d with
  | Some _ => true
  | None => false
  end.

(** [d[key] = v]: an existing entry keeps its place, a new one is
    appended. *)
Fixpoint dict_set (key : string) (v : V) (d : dict) : dict :=
  match d with
  | [] => [(key, v)]
  | (key', v') :: d' =>
      if String.eqb key key' then (key', v) :: d'
      else (key', v') :: dict_set key v d'
  end.

(** [d.items()], in insertion order. *)
Definition dict_items (d : dict) : list (string * V) := d.

Definition dict_keys (d : dict) : list string := map fst d.
End Dict.

Arguments dict V : clear implicits.

(** ** Builtins: [enumerate] and [sorted(..., key=..., reverse=True)] *)

Fixpoint enumerate_from {A : Type} (start : nat) (l : list A)
  : list (nat * A) :=
  match l with
  | [] => []
  | x :: l' => (start, x) :: enumerate_from (S start) l'
  end.

Definition enumerate {A : Type} (l : list A) : list (nat * A) :=
  enumerate_from 0 l.

Section Sorted.
Context {score : Type} {Ar : Arith score} {A : Type}.
Variable key : A -> score.

(** [x] stood before every element of [l] in the input: it passes the
    elements whose key is strictly greater and stops at the first one
    whose key is not. *)
Fixpoint insert_desc (x : A) (l : list A) : list A :=
  match l with
  | [] => [x]
  | y :: l' =>
      if s_lt (key x) (key y) then y :: insert_desc x l'
      else x :: y :: l'
  end.

(** The stable descending sort: elements that compare equal keep the
    order of the input, as CPython's [list.sort] guarantees also under
    [reverse=True]. *)
Fixpoint sorted_reverse (l : list A) : list A :=
  match l with
  | [] => []
  | x :: l' => insert_desc x (sorted_reverse l')
  end.
End Sorted.

(** ** [rag_fusion.py] *)

Module RagFusion.
Section Fuser.
Context {score : Type} {Ar : Arith score}.
Context {Doc : Type}.
Variable dumps : Doc -> string.
Variable loads : string -> Doc.

(** Lines 27-31, the body of the inner loop. *)
Definition visit (k : Z) (fused_scores : dict score) (rank : nat)
  (doc : Doc) : result (dict score) :=
let doc_str := dumps doc in
let fused_scores :=
  if dict_mem doc_str fused_scores then fused_scores
  else dict_set doc_str s_zero fused_scores in
match dict_get doc_str fused_scores with
| None => Raise KeyError
| Some previous_score =>
    if (Z.of_nat rank + k =? 0)%Z then Raise ZeroDivisionError
    else Ok (dict_set doc_str
               (s_add previous_score (s_recip (Z.of_nat rank + k)))
               fused_scores)
end.

(** Line 26: [for rank, doc in enumerate(docs)]. *)
Fixpoint for_docs (k : Z) (fused_scores : dict score)
  (items : list (nat * Doc)) : result (dict score) :=
match items with
| [] => Ok fused_scores
| (rank, doc) :: rest =>
    fused_scores' <- visit k fused_scores rank doc ;;
    for_docs k fused_scores' rest
end.

(** Line 24: [for docs in results]. *)
Fixpoint for_results (k : Z) (fused_scores : dict score)
  (results : list (list Doc)) : result (dict score) :=
match results with
| [] => Ok fused_scores
| docs :: rest =>
    fused_scores' <- for_docs k fused_scores (enumerate docs) ;;
    for_results k fused_scores' rest
end.

(** Lines 23-31: the dict at the end of the loops. *)
Definition fused_scores (results : list (list Doc)) (k : Z)
: result (dict score) :=
for_results k [] results.

(** Line 35: [sorted(fused_scores.items(), key=lambda x: x[1],
  reverse=True)]. *)
Definition ranked (results : list (list Doc)) (k : Z)
: result (list (string * score)) :=
fused_scores <- fused_scores results k ;;
Ok (sorted_reverse snd (dict_items fused_scores)).

(** Lines 22-37. *)
Definition reciprocal_rank_fusion (results : list (list Doc)) (k : Z)
: result (list (Doc * score)) :=
ranked <- ranked results k ;;
Ok (map (fun '(doc, score) => (loads doc, score)) ranked).
End Fuser.
End RagFusion.

(** ** [reciprocal_rank_fusion.py] *)

Module ReciprocalRankFusion.
Section Fuser.
Context {score : Type} {Ar : Arith score}.
Context {Doc : Type}.
Variable dumps : Doc -> string.
Variable loads : string -> Doc.

(** Lines 10-14, the body of the inner loop. *)
Definition visit (k : Z) (fused_scores : dict score) (rank : nat)
  (doc : Doc) : result (dict score) :=
let doc_str := dumps doc in
let fused_scores :=
  if dict_mem doc_str fused_scores then fused_scores
  else dict_set doc_str s_zero fused_scores in
match dict_get doc_str fused_scores with
| None => Raise KeyError
| Some previous_score =>
    if (Z.of_nat rank + k =? 0)%Z then Raise ZeroDivisionError
    else Ok (dict_set doc_str
               (s_add previous_score (s_recip (Z.of_nat rank + k)))
               fused_scores)
end.

(** Line 9. *)
Fixpoint for_docs (k : Z) (fused_scores : dict score)
  (items : list (nat * Doc)) : result (dict score) :=
match items with
| [] => Ok fused_scores
| (rank, doc) :: rest =>
    fused_scores' <- visit k fused_scores rank doc ;;
    for_docs k fused_scores' rest
end.

(** Line 7. *)
Fixpoint for_results (k : Z) (fused_scores : dict score)
  (results : list (list Doc)) : result (dict score) :=
match results with
| [] => Ok fused_scores
| docs :: rest =>
    fused_scores' <- for_docs k fused_scores (enumerate docs) ;;
    for_results k fused_scores' rest
end.

(** Lines 6-14. *)
Definition fused_scores (results : list (list Doc)) (k : Z)
: result (dict score) :=
for_results k [] results.

(** Line 18. *)
Definition ranked (results : list (list Doc)) (k : Z)
: result (list (string * score)) :=
fused_scores <- fused_scores results k ;;
Ok (sorted_reverse snd (dict_items fused_scores)).

(** Lines 5-20: the comprehension keeps [loads(doc)] and drops the
  score. *)
Definition reciprocal_rank_fusion (results : list (list Doc)) (k : Z)
: result (list Doc) :=
ranked <- ranked results k ;;
Ok (map (fun '(doc, score) => loads doc) ranked).
End Fuser.
End ReciprocalRankFusion.

(** ** [reciprocal_rank_fusion.py], [main]

    The input is the value [json.loads] returned.  Python strings are
    taken as byte strings, which is what they are for ASCII text. *)

#[warnings="-register-all"] Inductive json : Type :=
| JNull
| JBool (b : bool)
| JInt (n : Z)
| JFloat (x : float)
| JStr (s : string)
| JList (l : list json)
| JDict (l : list (string * json)).

Module Main.

(** The characters of a string, each a string of length one. *)
Definition chars (s : string) : list string :=
  map (fun c => String c EmptyString) (list_ascii_of_string s).

(** The iteration protocol that [enumerate(docs)] relies on: a list
    yields its elements, a dict its keys, a str its characters; None,
    bools and numbers are not iterable. *)
Definition iterate (v : json) : result (list json) :=
  match v with
  | JList l => Ok l
  | JDict l => Ok (map (fun kv => JStr (fst kv)) l)
  | JStr s => Ok (map JStr (chars s))
  | JNull | JBool _ | JInt _ | JFloat _ => Raise TypeError
  end.

(** Every element of [results] as [enumerate] will see it.  With
    [k = 60] no division by zero can come first, so the TypeError of
    the first element that is not iterable is the exception the call
    ends with. *)
Fixpoint iterate_all (results : list json) : result (list (list json)) :=
  match results with
  | [] => Ok []
  | docs :: rest =>
      items <- iterate docs ;;
      more <- iterate_all rest ;;
      Ok (items :: more)
  end.

(** What [main] prints: the success payload or the error payload. *)
Inductive payload : Type :=
| Success (results : list json)
| Failure (e : exn).

Section Main.
Context {score : Type} {Ar : Arith score}.
Variable dumps : json -> string.
Variable loads : string -> json.

(** Lines 25-31, the body of the [try]. *)
Definition attempt (input_data : json) : result (list json) :=
  match input_data with
  | JList results =>
      results <- iterate_all results ;;
      ReciprocalRankFusion.reciprocal_rank_fusion dumps loads results 60
  | _ => Raise (ValueError "Input must be a list of result lists")
  end.

(** Lines 22-44: the printed payload and the exit status. *)
Definition main (input_data : json) : payload * Z :=
  match attempt input_data with
  | Ok fused_results => (Success fused_results, 0%Z)
  | Raise e => (Failure e, 1%Z)
  end.
End Main.
End Main.

(** ** Vocabulary of the specification *)

Section Reading.
Context {score : Type} {Ar : Arith score}.
Context {Doc : Type}.
Variable dumps : Doc -> string.

(** The canonical key of a document is [dumps doc]. *)
Definition has_key (key : string) (item : nat * Doc) : bool :=
  String.eqb (dumps (snd item)) key.

(** The 0-indexed ranks at which [key] occurs in one ranked list. *)
Definition positions (key : string) (docs : list Doc) : list nat :=
  map fst (filter (has_key key) (enumerate docs)).

(** The ranks of every occurrence of [key], list after list. *)
Definition occurrence_ranks (key : string) (results : list (list Doc))
  : list nat :=
  flat_map (positions key) results.

(** The keys of the flattened input, one per position. *)
Definition all_keys (results : list (list Doc)) : list string :=
  map dumps (List.concat results).

(** The first document of the flattened input that has [key]. *)
Definition first_occurrence (key : string) (results : list (list Doc))
  : option Doc :=
  find (fun doc => String.eqb (dumps doc) key) (List.concat results).

(** [s + 1 / (rank + k)] *)
Definition add_rank (k : Z) (s : score) (rank : nat) : score :=
  s_add s (s_recip (Z.of_nat rank + k)).

(** The sum of [1 / (rank + k)] over [ranks], taken from [0] in the
    order of [ranks]. *)
Definition score_sum (k : Z) (ranks : list nat) : score :=
  fold_left (add_rank k) ranks s_zero.

(** One (key, contribution) pair per position of the flattened
    input. *)
Definition event (k : Z) (item : nat * Doc) : string * score :=
  (dumps (snd item), s_recip (Z.of_nat (fst item) + k)).

Definition events (k : Z) (results : list (list Doc))
  : list (string * score) :=
  flat_map (fun docs => map (event k) (enumerate docs)) results.
End Reading.

(** The distinct elements of [l], each at its first occurrence. *)
Fixpoint distinct (l : list string) : list string :=
  match l with
  | [] => []
  | x :: l' => x :: filter (fun y => negb (String.eqb y x)) (distinct l')
  end.

(** Position of the first occurrence of [key]. *)
Fixpoint index_of (key : string) (l : list string) : option nat :=
  match l with
  | [] => None
  | x :: l' =>
      if String.eqb key x then Some 0%nat
      else option_map S (index_of key l')
  end.

(** What one visit does to the dict when nothing is raised. *)
Definition bump {score : Type} {Ar : Arith score} (d : dict score)
    (ev : string * score) : dict score :=
  let '(key, c) := ev in
  let d1 := if dict_mem key d then d else dict_set key s_zero d in
  match dict_get key d1 with
  | Some previous_score => dict_set key (s_add previous_score c) d1
  | None => d1
  end.

(** The contributions to [key] among [evs], summed from [init]. *)
Definition total {score : Type} {Ar : Arith score} (key : string)
    (evs : list (string * score)) (init : score) : score :=
  fold_left (fun s ev => if String.eqb (fst ev) key then s_add s (snd ev)
                         else s)
            evs init.

(** The dict the loops end with, as a table: the keys at their first
    occurrence, each with its total. *)
Definition table {score : Type} {Ar : Arith score}
    (evs : list (string * score)) : dict score :=
  map (fun key => (key, total key evs s_zero)) (distinct (map fst evs)).

(** [x] may stand before [y] in a list that descends by [key]: the sort
    does not see [x] below [y]. *)
Definition above {score : Type} {Ar : Arith score} {A : Type}
    (key : A -> score) (x y : A) : Prop :=
  s_lt (key x) (key y) = false.

(** [x] stands somewhere before [y] in [l]. *)
Inductive before {A : Type} (x y : A) : list A -> Prop :=
| before_here (l : list A) : In y l -> before x y (x :: l)
| before_later (z : A) (l : list A) : before x y l -> before x y (z :: l).


(** ** The scenario of the specification: four documents A, B, C, D *)

Module Scenario.
Inductive doc : Type := A | B | C | D.

Definition dumps (d : doc) : string :=
  match d with
  | A => "A"
  | B => "B"
  | C => "C"
  | D => "D"
  end.

Definition loads (s : string) : doc :=
  if String.eqb s "B" then B
  else if String.eqb s "C" then C
  else if String.eqb s "D" then D
  else A.

Definition lists : list (list doc) := [[A; B; C]; [B; A; D]].
End Scenario.

(** ** More vocabulary: where the loops stop, and sums of scores *)

(** [1 / (rank + k)] divides by zero at some rank of [docs]: [k] is not
    positive and [docs] reaches rank [- k]. *)
Definition hits_zero {A : Type} (k : Z) (docs : list A) : bool :=
  ((k <=? 0) && (- k <? Z.of_nat (List.length docs)))%Z.

Definition divides_by_zero {A : Type} (k : Z) (results : list (list A))
  : bool :=
  existsb (hits_zero k) results.

Definition nonempty {A : Type} (docs : list A) : bool :=
  match docs with
  | [] => false
  | _ :: _ => true
  end.




(** ** Scripts as processes: what they print and how they end

    [rag_fusion.py] and [semantic_split.py] print JSON payloads and end
    through [sys.exit].  A step ends with a value, with an exception
    that [except Exception] catches (kept as its [str(e)]), or with
    SystemExit, which [except Exception] lets through.  What [print]
    writes is kept as the list of the values given to [json.dumps]. *)

Module Process.

Inductive outcome (A : Type) : Type :=
| Return (a : A)
| Throw (msg : string)
| SystemExit (code : Z).

Arguments Return {A} a.
Arguments Throw {A} msg.
Arguments SystemExit {A} code.

Definition io (A : Type) : Type := list json -> outcome A * list json.

Definition ret {A : Type} (a : A) : io A := fun out => (Return a, out).

Definition io_bind {A B : Type} (c : io A) (f : A -> io B) : io B :=
  fun out =>
    match c out with
    | (Return a, out') => f a out'
    | (Throw msg, out') => (Throw msg, out')
    | (SystemExit code, out') => (SystemExit code, out')
    end.

(** [print(json.dumps(v))] *)
Definition print (v : json) : io unit := fun out => (Return tt, out ++ [v]).

(** [sys.exit(code)] *)
Definition sys_exit {A : Type} (code : Z) : io A :=
  fun out => (SystemExit code, out).

(** A call into a library: it returns or raises an exception. *)
Definition call {A : Type} (r : string + A) : io A :=
  fun out =>
    match r with
    | inl msg => (Throw msg, out)
    | inr a => (Return a, out)
    end.

(** [try: body except Exception as e: handler(str(e))] *)
Definition try_except {A : Type} (body : io A) (handler : string -> io A)
  : io A :=
  fun out =>
    match body out with
    | (Throw msg, out') => handler msg out'
    | other => other
    end.

(** The exit status and the output of a script whose last statement
    leaves [m]'s value to [status]: an exception that nothing caught ends
    the interpreter with status 1. *)
Definition run {A : Type} (status : A -> Z) (m : io A) : Z * list json :=
  match m [] with
  | (Return a, out) => (status a, out)
  | (Throw _, out) => (1%Z, out)
  | (SystemExit code, out) => (code, out)
  end.

(** The payloads of the scripts. *)
Definition error_payload (msg : string) : json :=
  JDict [("error", JStr msg)].

Definition is_success (v : json) : bool :=
  match v with
  | JDict (("success", JBool true) :: _) => true
  | _ => false
  end.

End Process.

Notation "x <-- c ;; f" := (Process.io_bind c (fun x => f))
  (at level 61, c at next level, right associativity).
Notation "c ;;; f" := (Process.io_bind c (fun _ => f))
  (at level 61, right associativity).

(** [s.split(sep)] for a separator of one character: the pieces between
    the occurrences of [sep], empty pieces included. *)
Fixpoint split_on (sep : ascii) (s : string) : list string :=
  match s with
  | EmptyString => [EmptyString]
  | String c s' =>
      if Ascii.eqb c sep then EmptyString :: split_on sep s'
      else
        match split_on sep s' with
        | [] => [String c EmptyString]
        | piece :: rest => String c piece :: rest
        end
  end.

(** The line feed, ["\n"] in the source. *)
Definition newline : ascii := "010"%char.

(** The number of occurrences of a character. *)
Fixpoint count_char (c : ascii) (s : string) : nat :=
  match s with
  | EmptyString => 0%nat
  | String c' s' =>
      if Ascii.eqb c' c then S (count_char c s') else count_char c s'
  end.

(** ** [rag_fusion.py], [generate_rag_fusion_queries] and [main] *)

Module RagFusionScript.
Section Script.

(** Lines 52-58 and 63: the prompt pulled from the hub, the chat model
    and the string parser, invoked on the query; it returns the text of
    the model or raises. *)
Variable chain : string -> string + string.

(** Lines 39-70.  The function prints and returns nothing. *)
Definition generate_rag_fusion_queries (user_query : string)
  : Process.io unit :=
  Process.try_except
    (text <-- Process.call (chain user_query) ;;
     let queries := split_on newline text in
     Process.print
       (JDict [("success", JBool true);
               ("queries", JList (map JStr queries))]))
    (fun e =>
       Process.print (Process.error_payload e) ;;;
       Process.sys_exit 1).

(** Lines 12-19. *)
Definition main (argv : list string) : Process.io Z :=
  if (List.length argv <? 2)%nat then
    Process.print (Process.error_payload "No filename provided") ;;;
    Process.sys_exit 1
  else
    generate_rag_fusion_queries (nth 1 argv "") ;;;
    Process.ret 0%Z.

(** Lines 72-73: [sys.exit(main())]. *)
Definition script (argv : list string) : Z * list json :=
  Process.run (fun status => status) (main argv).

End Script.
End RagFusionScript.

(** ** [semantic_split.py], [main] *)

Module SemanticSplit.

(** What the script reads of a langchain Document. *)
Record document : Type := {
  page_content : string;
  metadata : json
}.

Section Script.

(** Lines 18 and 20: whether the file of that name exists under the
    uploads directory of the working directory. *)
Variable upload_exists : string -> bool.

(** Lines 27-39: the PDF loaded and split by the semantic chunker; it
    returns the split documents or raises. *)
Variable load_and_split : string -> string + list document.

(** Lines 44-47. *)
Definition chunk_of (doc : document) : json :=
  JDict [("text", JStr (page_content doc)); ("metadata", metadata doc)].

(** Lines 42-48: the loop that appends one chunk per document. *)
Definition chunks_of (split_docs : list document) : list json :=
  fold_left (fun chunks doc => chunks ++ [chunk_of doc]) split_docs [].

(** Lines 8-61. *)
Definition main (argv : list string) : Process.io unit :=
  if (List.length argv <? 2)%nat then
    Process.print (Process.error_payload "No filename provided") ;;;
    Process.sys_exit 1
  else
    Process.try_except
      (let pdf_filename := nth 1 argv "" in
       if negb (upload_exists pdf_filename) then
         Process.print
           (Process.error_payload ("PDF file not found: " ++ pdf_filename)) ;;;
         Process.sys_exit 1
       else
         split_docs <-- Process.call (load_and_split pdf_filename) ;;
         Process.print
           (JDict [("success", JBool true);
                   ("chunks", JList (chunks_of split_docs))]) ;;;
         Process.sys_exit 0)
      (fun e =>
         Process.print (Process.error_payload e) ;;;
         Process.sys_exit 1).

(** Lines 63-64: [main()], after which the interpreter would end with
    status 0. *)
Definition script (argv : list string) : Z * list json :=
  Process.run (fun _ => 0%Z) (main argv).

End Script.
End SemanticSplit.

(** * Proofs *)

(** ** The ordered dict *)

Section DictFacts.
Context {V : Type}.
Implicit Types (d : dict V) (key : string) (v : V).

Lemma dict_get_set_same key v d :
  dict_get key (dict_set key v d) = Some v.
Proof.
  induction d as [|[key' v'] d IH]; simpl.
  - now rewrite String.eqb_refl.
  - destruct (String.eqb key key') eqn:E; simpl; rewrite E; auto.
Qed.

Lemma dict_get_notin key d :
  ~ In key (map fst d) -> dict_get key d = None.
Proof.
  induction d as [|[key' v'] d IH]; simpl; intros H; [reflexivity|].
  destruct (String.eqb_spec key key') as [->|_].
  - exfalso; apply H; now left.
  - apply IH; intros Hin; apply H; now right.
Qed.

Lemma dict_set_notin key v d :
  ~ In key (map fst d) -> dict_set key v d = d ++ [(key, v)].
Proof.
  induction d as [|[key' v'] d IH]; simpl; intros H; [reflexivity|].
  destruct (String.eqb_spec key key') as [->|_].
  - exfalso; apply H; now left.
  - f_equal; apply IH; intros Hin; apply H; now right.
Qed.

Lemma dict_set_last key v v' d :
  ~ In key (map fst d) ->
  dict_set key v' (d ++ [(key, v)]) = d ++ [(key, v')].
Proof.
  induction d as [|[key' w] d IH]; simpl; intros H.
  - now rewrite String.eqb_refl.
  - destruct (String.eqb_spec key key') as [->|_].
    + exfalso; apply H; now left.
    + f_equal; apply IH; intros Hin; apply H; now right.
Qed.

Lemma dict_get_last key v d :
  ~ In key (map fst d) -> dict_get key (d ++ [(key, v)]) = Some v.
Proof.
  intros H. rewrite <- (dict_set_notin key v d H).
  apply dict_get_set_same.
Qed.

Lemma dict_get_table key (f : string -> V) (keys : list string) :
  In key keys ->
  dict_get key (map (fun x => (x, f x)) keys) = Some (f key).
Proof.
  induction keys as [|x keys IH]; simpl; intros H; [contradiction|].
  destruct (String.eqb_spec key x) as [->|Hne]; [reflexivity|].
  destruct H as [->|H]; [contradiction|auto].
Qed.


Lemma dict_set_table key v (f : string -> V) (keys : list string) :
  NoDup keys -> In key keys ->
  dict_set key v (map (fun x => (x, f x)) keys)
  = map (fun x => (x, if String.eqb x key then v else f x)) keys.
Proof.
  induction keys as [|x keys IH]; simpl; intros Hnd H; [contradiction|].
  inversion Hnd as [|? ? Hx Hnd']; subst.
  rewrite (String.eqb_sym x key).
  destruct (String.eqb_spec key x) as [->|Hne].
  - f_equal. apply map_ext_in. intros y Hy.
    destruct (String.eqb_spec y x) as [->|_]; [contradiction|reflexivity].
  - f_equal. destruct H as [->|H]; [contradiction|auto].
Qed.
End DictFacts.

(** ** First occurrences *)

Lemma distinct_In (x : string) (l : list string) :
  In x (distinct l) <-> In x l.
Proof.
  induction l as [|a l IH]; simpl; [tauto|].
  rewrite filter_In, IH.
  destruct (String.eqb_spec x a) as [->|Hne]; simpl.
  - split; auto. 
  - split.
    + intros [H|[H _]]; auto.
    + intros [H|H]; [now left | now right].
Qed.

Lemma distinct_NoDup (l : list string) : NoDup (distinct l).
Proof.
  induction l as [|a l IH]; simpl; constructor.
  - rewrite filter_In. intros [_ H]. now rewrite String.eqb_refl in H.
  - now apply NoDup_filter.
Qed.

Lemma distinct_snoc_new (x : string) (l : list string) :
  ~ In x l -> distinct (l ++ [x]) = distinct l ++ [x].
Proof.
  induction l as [|b l IHl]; simpl; intros Hnot; [reflexivity|].
  rewrite IHl by (intros H; apply Hnot; now right).
  rewrite filter_app; simpl.
  destruct (String.eqb_spec x b) as [->|_]; simpl; [|reflexivity].
  exfalso; apply Hnot; now left.
Qed.

Lemma distinct_snoc_old (x : string) (l : list string) :
  In x l -> distinct (l ++ [x]) = distinct l.
Proof.
  induction l as [|a l IH]; simpl; intros H; [contradiction|].
  f_equal.
  destruct (in_dec string_dec x l) as [Hin|Hnot].
  - now rewrite IH.
  - destruct H as [->|H]; [|contradiction].
    rewrite distinct_snoc_new, filter_app by assumption; simpl.
    rewrite String.eqb_refl; simpl. now rewrite app_nil_r.
Qed.

(** ** The loops compute a table indexed by first occurrences *)

Section Table.
Context {score : Type} {Ar : Arith score}.
Implicit Types (evs : list (string * score)) (key : string).

Lemma total_snoc key evs ev init :
  total key (evs ++ [ev]) init
  = if String.eqb (fst ev) key then s_add (total key evs init) (snd ev)
    else total key evs init.
Proof. unfold total. now rewrite fold_left_app. Qed.

Lemma total_notin key evs init :
  ~ In key (map fst evs) -> total key evs init = init.
Proof.
  revert init. induction evs as [|[key' c] evs IH]; simpl; intros init H.
  - reflexivity.
  - unfold total; simpl.
    destruct (String.eqb_spec key' key) as [->|_].
    + exfalso; apply H; now left.
    + apply IH; intros Hin; apply H; now right.
Qed.

Lemma table_keys evs : map fst (table evs) = distinct (map fst evs).
Proof.
  unfold table. rewrite map_map; simpl. apply map_id.
Qed.

Lemma bump_table evs ev : bump (table evs) ev = table (evs ++ [ev]).
Proof.
  destruct ev as [key c]. unfold bump, dict_mem.
  destruct (in_dec string_dec key (map fst evs)) as [Hin|Hnot].
  - assert (Hd : In key (distinct (map fst evs))) by now apply distinct_In.
    unfold table at 1 2 3.
    rewrite (dict_get_table key _ _ Hd).
    unfold table at 1.
    rewrite (dict_get_table key _ _ Hd).
    unfold table.
    rewrite dict_set_table by (auto using distinct_NoDup).
    rewrite map_app; simpl. rewrite distinct_snoc_old by assumption.
    apply map_ext. intros x. rewrite total_snoc; simpl.
    rewrite (String.eqb_sym key x).
    now destruct (String.eqb_spec x key) as [->|_].
  - assert (Hd : ~ In key (map fst (table evs))).
    { rewrite table_keys, distinct_In. assumption. }
    rewrite (dict_get_notin key _ Hd).
    rewrite (dict_set_notin key _ _ Hd).
    rewrite (dict_get_last key _ _ Hd).
    rewrite (dict_set_last key _ _ _ Hd).
    unfold table. rewrite map_app; simpl.
    rewrite distinct_snoc_new by assumption.
    rewrite map_app; simpl. f_equal.
    + apply map_ext_in. intros x Hx. rewrite total_snoc; simpl.
      destruct (String.eqb_spec key x) as [E|_]; [|reflexivity].
      subst x. rewrite distinct_In in Hx. contradiction.
    + rewrite total_snoc; simpl. rewrite String.eqb_refl.
      now rewrite (total_notin key evs) by assumption.
Qed.

Lemma fold_bump evs : fold_left bump evs [] = table evs.
Proof.
  induction evs as [|ev evs IH] using rev_ind; [reflexivity|].
  now rewrite fold_left_app; simpl; rewrite IH, bump_table.
Qed.
End Table.

(** ** The loops of the fusers *)

Section LoopFacts.
Context {score : Type} {Ar : Arith score} {Doc : Type}.
Variable dumps : Doc -> string.
Implicit Types (k : Z) (fs : dict score) (results : list (list Doc)).

Lemma visit_bump k fs rank doc :
  (Z.of_nat rank + k <> 0)%Z ->
  RagFusion.visit dumps k fs rank doc
  = Ok (bump fs (event dumps k (rank, doc))).
Proof.
  intros Hk. unfold RagFusion.visit, bump, event; simpl.
  set (d1 := if dict_mem (dumps doc) fs then fs
             else dict_set (dumps doc) s_zero fs).
  assert (H : exists v, dict_get (dumps doc) d1 = Some v).
  { unfold d1, dict_mem.
    destruct (dict_get (dumps doc) fs) as [v|] eqn:E.
    - now exists v.
    - exists s_zero. apply dict_get_set_same. }
  destruct H as [v ->].
  destruct (Z.eqb_spec (Z.of_nat rank + k) 0); [contradiction|reflexivity].
Qed.

Lemma for_docs_bump k items fs :
  (0 < k)%Z ->
  RagFusion.for_docs dumps k fs items
  = Ok (fold_left bump (map (event dumps k) items) fs).
Proof.
  intros Hk. revert fs.
  induction items as [|[rank doc] items IH]; intros fs; simpl.
  - reflexivity.
  - rewrite visit_bump by lia. simpl. apply IH.
Qed.

Lemma for_results_bump k results fs :
  (0 < k)%Z ->
  RagFusion.for_results dumps k fs results
  = Ok (fold_left bump (events dumps k results) fs).
Proof.
  intros Hk. revert fs.
  induction results as [|docs results IH]; intros fs; simpl.
  - reflexivity.
  - rewrite for_docs_bump by assumption. simpl.
    rewrite fold_left_app. apply IH.
Qed.

Lemma fused_scores_table k results :
  (0 < k)%Z ->
  RagFusion.fused_scores dumps results k
  = Ok (table (events dumps k results)).
Proof.
  intros Hk. unfold RagFusion.fused_scores.
  now rewrite for_results_bump, fold_bump.
Qed.

Lemma enumerate_from_keys k start (docs : list Doc) :
  map fst (map (event dumps k) (enumerate_from start docs))
  = map dumps docs.
Proof.
  revert start. induction docs as [|d docs IH]; intros start; simpl.
  - reflexivity.
  - now rewrite IH.
Qed.

Lemma events_keys k results :
  map fst (events dumps k results) = all_keys dumps results.
Proof.
  unfold all_keys.
  induction results as [|docs results IH]; simpl; [reflexivity|].
  rewrite !map_app, IH. f_equal. apply enumerate_from_keys.
Qed.

Lemma total_items key k (items : list (nat * Doc)) init :
  total key (map (event dumps k) items) init
  = fold_left (fun s rank => s_add s (s_recip (Z.of_nat rank + k)))
              (map fst (filter (has_key dumps key) items)) init.
Proof.
  revert init. unfold total.
  induction items as [|[rank doc] items IH]; intros init; simpl.
  - reflexivity.
  - unfold has_key at 1; simpl.
    destruct (String.eqb (dumps doc) key); simpl; apply IH.
Qed.

Lemma total_events key k results init :
  total key (events dumps k results) init
  = fold_left (fun s rank => s_add s (s_recip (Z.of_nat rank + k)))
              (occurrence_ranks dumps key results) init.
Proof.
  revert init.
  induction results as [|docs results IH]; intros init; simpl.
  - reflexivity.
  - unfold total in *. rewrite !fold_left_app, <- IH. f_equal.
    apply total_items.
Qed.

(** The dict at the end of the loops, in closed form. *)
Lemma fused_scores_closed k results :
  (0 < k)%Z ->
  RagFusion.fused_scores dumps results k
  = Ok (map (fun key =>
               (key, score_sum k (occurrence_ranks dumps key results)))
            (distinct (all_keys dumps results))).
Proof.
  intros Hk. rewrite fused_scores_table by assumption.
  unfold table. rewrite events_keys. f_equal.
  apply map_ext. intros key. f_equal. apply total_events.
Qed.

(** The two files hold the same loops. *)
Lemma loops_agree k results :
  ReciprocalRankFusion.fused_scores dumps results k
  = RagFusion.fused_scores dumps results k.
Proof. reflexivity. Qed.

Lemma ranked_agree k results :
  ReciprocalRankFusion.ranked dumps results k
  = RagFusion.ranked dumps results k.
Proof. reflexivity. Qed.
End LoopFacts.

(** ** Order of occurrence *)

Section BeforeFacts.
Context {A : Type}.
Implicit Types (x y : A) (l : list A).

Lemma before_In x y l : before x y l -> In x l /\ In y l.
Proof.
  induction 1 as [l H|z l _ [IHx IHy]]; simpl; auto.
Qed.

Lemma before_split x y l :
  before x y l <-> exists l1 l2 l3, l = l1 ++ x :: l2 ++ y :: l3.
Proof.
  split.
  - induction 1 as [l H|z l _ (l1 & l2 & l3 & ->)].
    + apply in_split in H as (l2 & l3 & ->). now exists [], l2, l3.
    + now exists (z :: l1), l2, l3.
  - intros (l1 & l2 & l3 & ->).
    induction l1 as [|z l1 IH]; simpl.
    + apply before_here. apply in_or_app. right. now left.
    + now apply before_later.
Qed.

Lemma before_filter (f : A -> bool) x y l :
  before x y l -> f x = true -> f y = true -> before x y (filter f l).
Proof.
  intros H Hx Hy.
  induction H as [l H|z l _ IH]; simpl.
  - rewrite Hx. apply before_here. apply filter_In. auto.
  - destruct (f z); [now apply before_later | assumption].
Qed.

Lemma before_map {B : Type} (g : A -> B) x y l :
  before x y l -> before (g x) (g y) (map g l).
Proof.
  induction 1 as [l H|z l _ IH]; simpl.
  - apply before_here. now apply in_map.
  - now apply before_later.
Qed.

Lemma before_nth x y l :
  before x y l ->
  exists i j, (i < j)%nat /\ nth_error l i = Some x
              /\ nth_error l j = Some y.
Proof.
  induction 1 as [l H|z l _ (i & j & Hij & Hi & Hj)].
  - apply In_nth_error in H as [j Hj].
    exists 0%nat, (S j). repeat split; [lia | assumption].
  - exists (S i), (S j). repeat split; [lia | assumption | assumption].
Qed.
End BeforeFacts.

Lemma index_of_In (key : string) (l : list string) :
  In key l -> exists i, index_of key l = Some i.
Proof.
  induction l as [|x l IH]; simpl; intros H; [contradiction|].
  destruct (String.eqb_spec key x) as [->|Hne].
  - now exists 0%nat.
  - destruct H as [->|H]; [contradiction|].
    destruct (IH H) as [i ->]. now exists (S i).
Qed.

Lemma index_of_Some (key : string) (l : list string) (i : nat) :
  index_of key l = Some i -> In key l.
Proof.
  revert i. induction l as [|x l IH]; simpl; intros i H; [discriminate|].
  destruct (String.eqb_spec key x) as [->|Hne]; [now left|].
  destruct (index_of key l) as [i'|]; [|discriminate].
  right. now apply (IH i').
Qed.

Lemma index_of_nth (key : string) (l : list string) (i : nat) :
  index_of key l = Some i -> nth_error l i = Some key.
Proof.
  revert i. induction l as [|x l IH]; simpl; intros i H; [discriminate|].
  destruct (String.eqb_spec key x) as [->|Hne].
  - now injection H as <-.
  - destruct (index_of key l) as [i'|]; [|discriminate].
    injection H as <-. now apply IH.
Qed.

(** Earlier first occurrence means earlier among the distinct keys. *)
Lemma index_of_before (a b : string) (l : list string) (i j : nat) :
  index_of a l = Some i -> index_of b l = Some j -> (i < j)%nat ->
  before a b (distinct l).
Proof.
  revert i j. induction l as [|x l IH]; simpl; intros i j Ha Hb Hij.
  - discriminate.
  - destruct (String.eqb_spec a x) as [->|Hax].
    + injection Ha as <-.
      destruct (String.eqb_spec b x) as [->|Hbx].
      * injection Hb as <-. lia.
      * apply before_here. apply filter_In. split.
        -- apply distinct_In.
           destruct (index_of b l) as [j'|] eqn:E; [|discriminate].
           now apply (index_of_Some _ _ j').
        -- now apply Bool.negb_true_iff, String.eqb_neq.
    + destruct (String.eqb_spec b x) as [->|Hbx].
      * injection Hb as <-. lia.
      * destruct (index_of a l) as [i'|] eqn:Ea; [|discriminate].
        destruct (index_of b l) as [j'|] eqn:Eb; [|discriminate].
        injection Ha as <-. injection Hb as <-.
        apply before_later. apply before_filter.
        -- apply (IH i' j'); auto. lia.
        -- now apply Bool.negb_true_iff, String.eqb_neq.
        -- now apply Bool.negb_true_iff, String.eqb_neq.
Qed.

(** In a list without repetition, order of occurrence is order of
    first occurrence. *)
Lemma before_index_of (a b : string) (l : list string) :
  NoDup l -> before a b l ->
  exists i j, index_of a l = Some i /\ index_of b l = Some j
              /\ (i < j)%nat.
Proof.
  intros Hnd H. induction H as [l H|z l H IH].
  - inversion Hnd as [|? ? Hx _]; subst. simpl.
    rewrite String.eqb_refl.
    destruct (String.eqb_spec b a) as [->|_]; [contradiction|].
    destruct (index_of_In b l H) as [j ->]. simpl.
    exists 0%nat, (S j). repeat split. lia.
  - inversion Hnd as [|? ? Hz Hnd']; subst. simpl.
    destruct (before_In _ _ _ H) as [Ha Hb].
    destruct (String.eqb_spec a z) as [->|_]; [contradiction|].
    destruct (String.eqb_spec b z) as [->|_]; [contradiction|].
    destruct (IH Hnd') as (i & j & -> & -> & Hij). simpl.
    exists (S i), (S j). repeat split. lia.
Qed.

(** ** The stable descending sort *)

Section SortFacts.
Context {score : Type} {Ar : Arith score} {A : Type}.
Variable key : A -> score.
Implicit Types (x y : A) (l : list A).

Lemma insert_desc_perm x l : Permutation (insert_desc key x l) (x :: l).
Proof.
  induction l as [|y l IH]; simpl; [reflexivity|].
  destruct (s_lt (key x) (key y)); [|reflexivity].
  rewrite IH. apply perm_swap.
Qed.

Lemma sorted_reverse_perm l : Permutation (sorted_reverse key l) l.
Proof.
  induction l as [|x l IH]; simpl; [reflexivity|].
  rewrite insert_desc_perm. now constructor.
Qed.

Lemma sorted_reverse_In x l : In x (sorted_reverse key l) <-> In x l.
Proof.
  split; apply Permutation_in;
    [|symmetry]; apply sorted_reverse_perm.
Qed.

Lemma insert_desc_hd x z l :
  (above key) z x -> HdRel (above key) z l -> HdRel (above key) z (insert_desc key x l).
Proof.
  intros Hzx Hz. destruct l as [|y l]; simpl.
  - now constructor.
  - inversion Hz; subst.
    destruct (s_lt (key x) (key y)); now constructor.
Qed.

Lemma insert_desc_sorted x l :
  lt_asymmetric Ar ->
  Sorted (above key) l -> Sorted (above key) (insert_desc key x l).
Proof.
  intros Hasym Hs. induction Hs as [|y l Hs IH Hy]; simpl.
  - repeat constructor.
  - destruct (s_lt (key x) (key y)) eqn:E.
    + constructor; [assumption|].
      apply insert_desc_hd; [|assumption]. now apply Hasym.
    + constructor; [now constructor|]. now constructor.
Qed.

Lemma sorted_reverse_sorted l :
  lt_asymmetric Ar -> Sorted (above key) (sorted_reverse key l).
Proof.
  intros Hasym. induction l as [|x l IH]; simpl.
  - constructor.
  - now apply insert_desc_sorted.
Qed.

Lemma Sorted_adjacent l i x y :
  Sorted (above key) l ->
  nth_error l i = Some x -> nth_error l (S i) = Some y -> (above key) x y.
Proof.
  intros Hs. revert i.
  induction Hs as [|z l Hs IH Hz]; intros i Hx Hy.
  - now destruct i.
  - destruct i as [|i]; simpl in *.
    + injection Hx as ->. destruct l as [|w l]; [discriminate|].
      simpl in Hy. injection Hy as ->. now inversion Hz.
    + now apply (IH i).
Qed.


Lemma insert_desc_keeps x a b l :
  before a b l -> before a b (insert_desc key x l).
Proof.
  induction 1 as [l H|z l H IH]; simpl.
  - destruct (s_lt (key x) (key a)).
    + apply before_here.
      apply (Permutation_in _ (Permutation_sym (insert_desc_perm x l))).
      now right.
    + apply before_later. now apply before_here.
  - destruct (s_lt (key x) (key z)).
    + now apply before_later.
    + now do 2 apply before_later.
Qed.

Lemma insert_desc_first x b l :
  In b l -> (above key) x b -> before x b (insert_desc key x l).
Proof.
  intros Hb Hxb. induction l as [|y l IH]; simpl; [contradiction|].
  destruct (s_lt (key x) (key y)) eqn:E.
  - apply before_later. apply IH.
    destruct Hb as [->|Hb]; [|assumption].
    unfold above in Hxb. congruence.
  - now apply before_here.
Qed.

(** Stability: an element that does not compare below a later one
    stays before it. *)
Lemma sorted_reverse_stable a b l :
  before a b l -> (above key) a b -> before a b (sorted_reverse key l).
Proof.
  intros H Hab. induction H as [l H|z l H IH]; simpl.
  - apply insert_desc_first; [|assumption].
    now apply sorted_reverse_In.
  - now apply insert_desc_keeps.
Qed.
End SortFacts.

(** ** The rationals as score arithmetic *)

Lemma Qltb_spec (x y : Q) : Qltb x y = true <-> (x < y)%Q.
Proof. unfold Qltb, Qlt. apply Z.ltb_lt. Qed.


Lemma Q_lt_asymmetric : lt_asymmetric Q_arith.
Proof.
  intros x y; simpl; unfold Qltb.
  rewrite Z.ltb_lt, Z.ltb_ge. lia.
Qed.




(** ** Properties of the fusers *)

Section Claims.
Context {score : Type} {Ar : Arith score} {Doc : Type}.
Variable dumps : Doc -> string.
Variable loads : string -> Doc.
Implicit Types (k : Z) (results : list (list Doc)) (key : string).



(** The sorted items and the two results, from the closed form of the
    dict. *)
Lemma ranked_closed k results :
  (0 < k)%Z ->
  RagFusion.ranked dumps results k
  = Ok (sorted_reverse snd
          (map (fun key =>
                  (key, score_sum k (occurrence_ranks dumps key results)))
               (distinct (all_keys dumps results)))).
Proof.
  intros Hk. unfold RagFusion.ranked.
  now rewrite fused_scores_closed.
Qed.

Lemma ranked_keys k results ranked :
  (0 < k)%Z ->
  RagFusion.ranked dumps results k = Ok ranked ->
  Permutation (map fst ranked) (distinct (all_keys dumps results)).
Proof.
  intros Hk. rewrite ranked_closed by assumption. intros [= <-].
  rewrite sorted_reverse_perm, map_map; simpl. now rewrite map_id.
Qed.

Lemma first_occurrence_key key results first :
  first_occurrence dumps key results = Some first -> dumps first = key.
Proof.
  unfold first_occurrence. intros H.
  apply find_some in H as [_ H]. now apply String.eqb_eq.
Qed.

Lemma first_occurrence_exists key results :
  In key (all_keys dumps results) <->
  exists first, first_occurrence dumps key results = Some first.
Proof.
  unfold all_keys, first_occurrence. split.
  - intros H. apply in_map_iff in H as (d & Hd & Hin).
    destruct (find _ (List.concat results)) as [first|] eqn:E.
    + now exists first.
    + apply (find_none _ _ E) in Hin.
      rewrite Hd, String.eqb_refl in Hin. discriminate.
  - intros [first H]. apply find_some in H as [Hin H].
    apply String.eqb_eq in H. subst key. now apply in_map.
Qed.

Lemma nth_error_by_key (l : list (string * score)) key s i :
  NoDup (map fst l) -> In (key, s) l ->
  index_of key (map fst l) = Some i -> nth_error l i = Some (key, s).
Proof.
  revert i. induction l as [|[key' s'] l IH]; simpl; intros i Hnd Hin Hi.
  - contradiction.
  - inversion Hnd as [|? ? Hx Hnd']; subst.
    destruct (String.eqb_spec key key') as [->|Hne].
    + injection Hi as <-. simpl.
      destruct Hin as [[= ->]|Hin]; [reflexivity|].
      exfalso. apply Hx. now apply (in_map fst _ (key', s)).
    + destruct Hin as [[= E _]|Hin]; [congruence|].
      destruct (index_of key (map fst l)) as [i'|]; [|discriminate].
      injection Hi as <-. simpl. now apply IH.
Qed.









Lemma projection_of_pairs k results :
  ReciprocalRankFusion.reciprocal_rank_fusion dumps loads results k
  = bind (RagFusion.reciprocal_rank_fusion dumps loads results k)
         (fun out => Ok (map fst out)).
Proof.
  unfold ReciprocalRankFusion.reciprocal_rank_fusion,
    RagFusion.reciprocal_rank_fusion.
  rewrite ranked_agree.
  destruct (RagFusion.ranked dumps results k) as [ranked|e]; simpl.
  - f_equal. rewrite map_map. apply map_ext. now intros [key s].
  - reflexivity.
Qed.


(** C2: for k > 0 and a serializer whose keys survive [loads], the
    keys of the documents of the output are the distinct keys of the
    input, each once: the same set, as many entries as there are
    distinct keys, no key twice; the documents-only fuser returns the
    same documents; and no list at all gives the empty result. *)
Theorem output_keys_are_the_input_keys k results :
  (forall d, dumps (loads (dumps d)) = dumps d) -> (0 < k)%Z ->
  exists out,
    RagFusion.reciprocal_rank_fusion dumps loads results k = Ok out
    /\ ReciprocalRankFusion.reciprocal_rank_fusion dumps loads results k
       = Ok (map fst out)
    /\ Permutation (map dumps (map fst out))
                   (distinct (all_keys dumps results))
    /\ (forall key, In key (map dumps (map fst out))
                    <-> In key (all_keys dumps results))
    /\ List.length out = List.length (distinct (all_keys dumps results))
    /\ NoDup (map dumps (map fst out))
    /\ RagFusion.reciprocal_rank_fusion dumps loads [] k = Ok []
    /\ ReciprocalRankFusion.reciprocal_rank_fusion dumps loads [] k
       = Ok [].
Proof.
  intros Hstable Hk.
  destruct (RagFusion.ranked dumps results k) as [ranked|e] eqn:Hr;
    [|rewrite ranked_closed in Hr by assumption; discriminate].
  pose proof (ranked_keys k results ranked Hk Hr) as Hperm.
  assert (Hkeys : map dumps (map fst
                    (map (fun '(doc, score) => (loads doc, score)) ranked))
                  = map fst ranked).
  { rewrite !map_map. apply map_ext_in. intros [key s] Hin; simpl.
    assert (Hk' : In key (all_keys dumps results)).
    { apply distinct_In. apply (Permutation_in _ Hperm).
      now apply (in_map fst _ (key, s)). }
    unfold all_keys in Hk'. apply in_map_iff in Hk' as (d & <- & _).
    apply Hstable. }
  exists (map (fun '(doc, score) => (loads doc, score)) ranked).
  split; [|split; [|split; [|split; [|split; [|split]]]]].
  - unfold RagFusion.reciprocal_rank_fusion. now rewrite Hr.
  - rewrite projection_of_pairs.
    unfold RagFusion.reciprocal_rank_fusion. now rewrite Hr.
  - now rewrite Hkeys.
  - intros key. rewrite Hkeys.
    rewrite <- (distinct_In key (all_keys dumps results)).
    split; apply Permutation_in; [|symmetry]; exact Hperm.
  - rewrite length_map, <- (length_map fst).
    now apply Permutation_length.
  - rewrite Hkeys. apply (Permutation_NoDup (Permutation_sym Hperm)).
    apply distinct_NoDup.
  - split; reflexivity.
Qed.

(** C3: for k > 0 the scores of the output never increase from one
    entry to the next: the score of the earlier of two adjacent entries
    is greater than or equal to the score of the later one. *)
Theorem output_scores_descend k results :
  lt_asymmetric Ar -> (0 < k)%Z ->
  exists out,
    RagFusion.reciprocal_rank_fusion dumps loads results k = Ok out
    /\ forall i earlier later,
         nth_error (map snd out) i = Some earlier ->
         nth_error (map snd out) (S i) = Some later ->
         s_ge earlier later = true.
Proof.
  intros Hasym Hk.
  unfold RagFusion.reciprocal_rank_fusion.
  rewrite ranked_closed by assumption.
  set (items := map _ (distinct _)).
  exists (map (fun '(doc, score) => (loads doc, score))
              (sorted_reverse snd items)).
  split; [reflexivity|].
  intros i earlier later.
  rewrite map_map, (map_ext _ snd) by now intros [key s].
  intros Hi Hj. rewrite nth_error_map in Hi, Hj.
  destruct (nth_error (sorted_reverse snd items) i) as [x|] eqn:Ex;
    [|discriminate].
  destruct (nth_error (sorted_reverse snd items) (S i)) as [y|] eqn:Ey;
    [|discriminate].
  injection Hi as <-. injection Hj as <-.
  pose proof (Sorted_adjacent snd _ _ _ _
                (sorted_reverse_sorted snd items Hasym) Ex Ey) as H.
  unfold above in H. unfold s_ge. now rewrite H.
Qed.

(** C5: for every input and every k, the documents-only fuser returns
    the documents of the pairs of the pair-returning fuser, in the same
    order, and raises what it raises. *)
Theorem documents_only_is_projection k results :
  ReciprocalRankFusion.reciprocal_rank_fusion dumps loads results k
  = fmap (map fst)
         (RagFusion.reciprocal_rank_fusion dumps loads results k).
Proof.
unfold ReciprocalRankFusion.reciprocal_rank_fusion,
  RagFusion.reciprocal_rank_fusion, fmap.
rewrite ranked_agree.
destruct (RagFusion.ranked dumps results k) as [ranked|e]; simpl.
- f_equal. rewrite map_map. apply map_ext. now intros [key s].
- reflexivity.
Qed.


(** C9: for k > 0, when the first occurrence of key a in the
    flattened input comes before the first occurrence of key b, and the
    sort does not see the score of a below the score of b - as when the
    two scores are equal - the entry of a stands before the entry of b
    in the output of both fusers: ties are broken by first occurrence,
    and the output is a function of the input. *)
Theorem ties_keep_first_occurrence_order k results a b i j :
  (0 < k)%Z ->
  index_of a (all_keys dumps results) = Some i ->
  index_of b (all_keys dumps results) = Some j ->
  (i < j)%nat ->
  exists fs sa sb out,
    RagFusion.fused_scores dumps results k = Ok fs
    /\ dict_get a fs = Some sa
    /\ dict_get b fs = Some sb
    /\ RagFusion.reciprocal_rank_fusion dumps loads results k = Ok out
    /\ ReciprocalRankFusion.reciprocal_rank_fusion dumps loads results k
       = Ok (map fst out)
    /\ ((s_lt sa sb = false \/ (lt_asymmetric Ar /\ sa = sb)) ->
        exists i' j',
          (i' < j')%nat
          /\ nth_error out i' = Some (loads a, sa)
          /\ nth_error out j' = Some (loads b, sb)).
Proof.
  intros Hk Ha Hb Hij.
  set (f := fun key => score_sum k (occurrence_ranks dumps key results)).
  set (keys := distinct (all_keys dumps results)).
  set (items := map (fun key => (key, f key)) keys).
  assert (Hfs : RagFusion.fused_scores dumps results k = Ok items)
    by now apply fused_scores_closed.
  assert (Hina : In a keys)
    by (apply distinct_In; now apply (index_of_Some _ _ i)).
  assert (Hinb : In b keys)
    by (apply distinct_In; now apply (index_of_Some _ _ j)).
  assert (Hout : RagFusion.reciprocal_rank_fusion dumps loads results k
                 = Ok (map (fun '(doc, score) => (loads doc, score))
                           (sorted_reverse snd items))).
  { unfold RagFusion.reciprocal_rank_fusion, RagFusion.ranked.
    now rewrite Hfs. }
  exists items, (f a), (f b). eexists.
  split; [exact Hfs|].
  split; [now apply dict_get_table|].
  split; [now apply dict_get_table|].
  split; [exact Hout|].
  split; [rewrite projection_of_pairs, Hout; reflexivity|].
  intros Htie.
  assert (Habove : s_lt (f a) (f b) = false).
  { destruct Htie as [H|[Hasym E]]; [assumption|].
    rewrite E. destruct (s_lt (f b) (f b)) eqn:Hbb; [|reflexivity].
    now rewrite (Hasym _ _ Hbb) in Hbb. }
  assert (Hbef : before (a, f a) (b, f b) (sorted_reverse snd items)).
  { apply sorted_reverse_stable; [|exact Habove].
    apply (before_map (fun key => (key, f key))).
    now apply (index_of_before a b _ i j). }
  apply (before_map (fun '(doc, score) => (loads doc, score))) in Hbef.
  apply before_nth in Hbef as (i' & j' & Hlt & Hi & Hj).
  now exists i', j'.
Qed.

(** C10: for k > 0 the documents of the output are exactly the values
    [loads (dumps first)] for the first occurrences [first] of the keys
    of the flattened input, not the input instances themselves; a
    first occurrence that [loads] gives back from its serialization is
    emitted as it is.  The fusers are functions of the lists: nothing
    of the input is written to. *)
Theorem representatives_are_round_trips k results :
  (0 < k)%Z ->
  exists out,
    RagFusion.reciprocal_rank_fusion dumps loads results k = Ok out
    /\ ReciprocalRankFusion.reciprocal_rank_fusion dumps loads results k
       = Ok (map fst out)
    /\ (forall d, In d (map fst out) <->
          exists key first,
            first_occurrence dumps key results = Some first
            /\ d = loads (dumps first))
    /\ (forall key first,
          first_occurrence dumps key results = Some first ->
          loads (dumps first) = first -> In first (map fst out)).
Proof.
  intros Hk.
  destruct (RagFusion.ranked dumps results k) as [ranked|e] eqn:Hr;
    [|rewrite ranked_closed in Hr by assumption; discriminate].
  pose proof (ranked_keys k results ranked Hk Hr) as Hperm.
  assert (Hout : RagFusion.reciprocal_rank_fusion dumps loads results k
                 = Ok (map (fun '(doc, score) => (loads doc, score))
                           ranked)).
  { unfold RagFusion.reciprocal_rank_fusion. now rewrite Hr. }
  assert (Hdocs : forall d,
             In d (map fst (map (fun '(doc, score) => (loads doc, score))
                                ranked))
             <-> exists key first,
                   first_occurrence dumps key results = Some first
                   /\ d = loads (dumps first)).
  { intros d. rewrite map_map, in_map_iff. split.
    - intros ([key s] & <- & Hin). simpl.
      assert (Hkey : In key (all_keys dumps results)).
      { apply distinct_In, (Permutation_in _ Hperm).
        now apply (in_map fst _ (key, s)). }
      apply first_occurrence_exists in Hkey as [first Hfirst].
      exists key, first. split; [assumption|].
      now rewrite (first_occurrence_key _ _ _ Hfirst).
    - intros (key & first & Hfirst & ->).
      assert (Hkey : In key (map fst ranked)).
      { apply (Permutation_in _ (Permutation_sym Hperm)), distinct_In.
        apply first_occurrence_exists. now exists first. }
      apply in_map_iff in Hkey as ([key' s] & <- & Hin).
      exists (key', s). split; [|assumption]. simpl.
      now rewrite (first_occurrence_key _ _ _ Hfirst). }
  eexists. split; [exact Hout|].
  split; [rewrite projection_of_pairs, Hout; reflexivity|].
  split; [exact Hdocs|].
  intros key first Hfirst Hround. apply Hdocs.
  exists key, first. now split.
Qed.
End Claims.

(** ** Monotonicity, in exact arithmetic *)

Section Monotone.
Variable k : Z.
Hypothesis k_pos : (0 < k)%Z.






End Monotone.


(** ** The scenario [A, B, C], [B, A, D] with k = 60 *)

(** Against C8 as stated: D stands at rank 2 of the second list, so its
    score is 1/62, not 1/61; it ties with C, and C, seen first, comes
    before it. *)
Lemma scenario_D_scores_a_62nd_and_follows_C :
  RagFusion.reciprocal_rank_fusion
    (Ar := Q_arith) Scenario.dumps Scenario.loads Scenario.lists 60
  = Ok [(Scenario.A, (1 / 60 + 1 / 61)%Q);
        (Scenario.B, (1 / 61 + 1 / 60)%Q);
        (Scenario.C, (1 / 62)%Q);
        (Scenario.D, (1 / 62)%Q)]
  /\ ~ (1 / 62 == 1 / 61)%Q
  /\ RagFusion.reciprocal_rank_fusion
       (Ar := float_arith) Scenario.dumps Scenario.loads Scenario.lists 60
     = Ok [(Scenario.A, (1 / 60 + 1 / 61)%float);
           (Scenario.B, (1 / 61 + 1 / 60)%float);
           (Scenario.C, (1 / 62)%float);
           (Scenario.D, (1 / 62)%float)]
  /\ PrimFloat.eqb (1 / 62) (1 / 61) = false
  /\ ReciprocalRankFusion.reciprocal_rank_fusion
       (Ar := float_arith) Scenario.dumps Scenario.loads Scenario.lists 60
     = Ok [Scenario.A; Scenario.B; Scenario.C; Scenario.D].
Proof.
  split; [vm_compute; reflexivity|].
  split; [intros H; vm_compute in H; discriminate|].
  split; [vm_compute; reflexivity|].
  split; vm_compute; reflexivity.
Qed.

Section FourDocuments.
Context {Doc : Type}.
Variable dumps : Doc -> string.
Variable loads : string -> Doc.
Variables A B C D : Doc.
Hypothesis distinct_keys : NoDup [dumps A; dumps B; dumps C; dumps D].

Lemma four_keys_differ :
  dumps A <> dumps B /\ dumps A <> dumps C /\ dumps A <> dumps D
  /\ dumps B <> dumps C /\ dumps B <> dumps D /\ dumps C <> dumps D.
Proof.
  inversion distinct_keys as [|? ? HA H1]; subst.
  inversion H1 as [|? ? HB H2]; subst.
  inversion H2 as [|? ? HC _]; subst.
  simpl in HA, HB, HC. intuition.
Qed.

Lemma four_keys_fused {score : Type} (Ar : Arith score) :
  RagFusion.fused_scores dumps [[A; B; C]; [B; A; D]] 60
  = Ok [(dumps A, s_add (s_add s_zero (s_recip 60)) (s_recip 61));
        (dumps B, s_add (s_add s_zero (s_recip 61)) (s_recip 60));
        (dumps C, s_add s_zero (s_recip 62));
        (dumps D, s_add s_zero (s_recip 62))].
Proof.
  destruct four_keys_differ as (AB & AC & AD & BC & BD & CD).
  assert (BA := not_eq_sym AB). assert (CA := not_eq_sym AC).
  assert (DA := not_eq_sym AD). assert (CB := not_eq_sym BC).
  assert (DB := not_eq_sym BD). assert (DC := not_eq_sym CD).
  apply String.eqb_neq in AB, AC, AD, BC, BD, CD, BA, CA, DA, CB, DB, DC.
  unfold RagFusion.fused_scores.
  rewrite for_results_bump by reflexivity. f_equal.
  unfold events, enumerate, event.
  cbn [flat_map map enumerate_from app fst snd fold_left].
  change (Z.of_nat 0 + 60)%Z with 60%Z.
  change (Z.of_nat 1 + 60)%Z with 61%Z.
  change (Z.of_nat 2 + 60)%Z with 62%Z.
  unfold bump, dict_mem.
  repeat (cbn [dict_get dict_set];
          rewrite ?String.eqb_refl, ?AB, ?AC, ?AD, ?BC, ?BD, ?CD,
            ?BA, ?CA, ?DA, ?CB, ?DB, ?DC).
  reflexivity.
Qed.
End FourDocuments.

(** C8, amended: for two ranked lists [A, B, C] and [B, A, D] of four
    documents with pairwise distinct keys and k = 60, fusion gives
    1/60 + 1/61 to A, 1/61 + 1/60 to B, which is the same score, 1/62 to
    C and 1/62 to D, which stands at rank 2 of the second list; the
    output is A, B, C, D, each tie broken by first occurrence.  This
    holds in exact and in binary64 arithmetic. *)
Theorem scenario_scores_and_order {Doc : Type} (dumps : Doc -> string)
    (loads : string -> Doc) (A B C D : Doc) :
  NoDup [dumps A; dumps B; dumps C; dumps D] ->
  RagFusion.reciprocal_rank_fusion
    (Ar := Q_arith) dumps loads [[A; B; C]; [B; A; D]] 60
  = Ok [(loads (dumps A), (1 / 60 + 1 / 61)%Q);
        (loads (dumps B), (1 / 61 + 1 / 60)%Q);
        (loads (dumps C), (1 / 62)%Q);
        (loads (dumps D), (1 / 62)%Q)]
  /\ (1 / 60 + 1 / 61)%Q = (1 / 61 + 1 / 60)%Q
  /\ RagFusion.reciprocal_rank_fusion
       (Ar := float_arith) dumps loads [[A; B; C]; [B; A; D]] 60
     = Ok [(loads (dumps A), (1 / 60 + 1 / 61)%float);
           (loads (dumps B), (1 / 61 + 1 / 60)%float);
           (loads (dumps C), (1 / 62)%float);
           (loads (dumps D), (1 / 62)%float)]
  /\ (1 / 60 + 1 / 61)%float = (1 / 61 + 1 / 60)%float
  /\ ReciprocalRankFusion.reciprocal_rank_fusion
       (Ar := float_arith) dumps loads [[A; B; C]; [B; A; D]] 60
     = Ok [loads (dumps A); loads (dumps B); loads (dumps C);
           loads (dumps D)].
Proof.
  intros Hnd.
  assert (HQ := four_keys_fused dumps A B C D Hnd Q_arith).
  assert (HF := four_keys_fused dumps A B C D Hnd float_arith).
  unfold ReciprocalRankFusion.reciprocal_rank_fusion,
    RagFusion.reciprocal_rank_fusion, RagFusion.ranked.
  rewrite ranked_agree. unfold RagFusion.ranked.
  rewrite HQ, HF. cbn [bind dict_items].
  split; [vm_compute; reflexivity|].
  split; [vm_compute; reflexivity|].
  split; [vm_compute; reflexivity|].
  split; vm_compute; reflexivity.
Qed.

(** ** [main] *)

Lemma iterate_all_dicts (docs : list (list (string * json))) :
  Main.iterate_all (map JDict docs)
  = Ok (map (map (fun kv => JStr (fst kv))) docs).
Proof.
  induction docs as [|d docs IH]; simpl; [reflexivity|].
  now rewrite IH.
Qed.

(** C4: what [main] does with input that is not a list of lists.  An
    input that is no list is refused by the guard and a flat list of
    numbers by the iteration, but a flat list of documents that are JSON
    objects is not refused at all: each object is iterated as the list
    of its keys, and [main] reports success with the fused keys. *)
Theorem flat_list_of_documents_is_fused {score : Type} (Ar : Arith score)
    (dumps : json -> string) (loads : string -> json) :
  Main.main dumps loads (JList [JDict [("a", JInt 1)]])
  = (Main.Success [loads (dumps (JStr "a"))], 0%Z)
  /\ (forall docs : list (list (string * json)),
        exists out,
          Main.main dumps loads (JList (map JDict docs))
          = (Main.Success out, 0%Z))
  /\ Main.main dumps loads (JList [JInt 1; JInt 2])
     = (Main.Failure TypeError, 1%Z)
  /\ Main.main dumps loads (JDict [("a", JInt 1)])
     = (Main.Failure (ValueError "Input must be a list of result lists"),
        1%Z).
Proof.
  split.
  { unfold Main.main, Main.attempt.
    cbn [Main.iterate_all Main.iterate bind map fst].
    rewrite projection_of_pairs.
    unfold RagFusion.reciprocal_rank_fusion.
    rewrite ranked_closed by reflexivity. reflexivity. }
  split; [|split; reflexivity].
  intros docs. unfold Main.main, Main.attempt.
  rewrite iterate_all_dicts. cbn [bind].
  rewrite projection_of_pairs.
  unfold RagFusion.reciprocal_rank_fusion.
  rewrite ranked_closed by reflexivity. cbn [bind].
  eexists. reflexivity.
Qed.

(** ** Where binary64 leaves the exact reading

    Two facts of the float arithmetic, for the record.  Neither touches
    the order of the output, which only rests on the asymmetry of [<]
    and on the stability of the sort. *)

(** The float sum depends on the order in which the occurrences are
    met: A, met at ranks 0, 0, 2, and B, met at ranks 2, 0, 0, have the
    same ranks and the same exact score, and the float of B is one unit
    in the last place below the float of A. *)
Remark binary64_sum_depends_on_order :
  let lists := [[Scenario.A]; [Scenario.A];
                [Scenario.C; Scenario.D; Scenario.A];
                [Scenario.C; Scenario.D; Scenario.B];
                [Scenario.B]; [Scenario.B]] in
  occurrence_ranks Scenario.dumps "A" lists = [0; 0; 2]%nat
  /\ occurrence_ranks Scenario.dumps "B" lists = [2; 0; 0]%nat
  /\ score_sum (Ar := Q_arith) 60 [0; 0; 2]%nat
     = score_sum (Ar := Q_arith) 60 [2; 0; 0]%nat
  /\ exists fs sa sb,
       RagFusion.fused_scores (Ar := float_arith) Scenario.dumps lists 60
       = Ok fs
       /\ dict_get "A" fs = Some sa
       /\ dict_get "B" fs = Some sb
       /\ s_lt sb sa = true.
Proof.
  cbv zeta. split; [reflexivity|]. split; [reflexivity|].
  split; [vm_compute; reflexivity|].
  do 3 eexists.
  split; [vm_compute; reflexivity|].
  split; [reflexivity|]. split; [reflexivity|].
  vm_compute. reflexivity.
Qed.

(** For k next to 2^53 the floats of 1 / (0 + k) and 1 / (1 + k) are the
    same: the scores of a single list then descend without descending
    strictly, and the list still keeps its order. *)
Remark binary64_reciprocals_meet_for_huge_k :
  let k := (2 ^ 53 - 100)%Z in
  s_recip (Arith := float_arith) (Z.of_nat 0 + k)
  = s_recip (Arith := float_arith) (Z.of_nat 1 + k)
  /\ exists s,
       RagFusion.reciprocal_rank_fusion
         (Ar := float_arith) Scenario.dumps Scenario.loads
         [[Scenario.A; Scenario.B]] k
       = Ok [(Scenario.A, s); (Scenario.B, s)].
Proof.
  cbv zeta. split; [vm_compute; reflexivity|].
  eexists. vm_compute. reflexivity.
Qed.

(** ** The theorems at the scenario *)

Lemma scenario_keys_survive (d : Scenario.doc) :
  Scenario.dumps (Scenario.loads (Scenario.dumps d)) = Scenario.dumps d.
Proof. now destruct d. Qed.


Lemma scenario_keys_distinct :
  NoDup [Scenario.dumps Scenario.A; Scenario.dumps Scenario.B;
         Scenario.dumps Scenario.C; Scenario.dumps Scenario.D].
Proof.
  repeat constructor; simpl; intuition discriminate.
Qed.



Lemma output_keys_are_the_input_keys_witness :
  (forall d, Scenario.dumps (Scenario.loads (Scenario.dumps d))
             = Scenario.dumps d)
  /\ (0 < 60)%Z /\
  exists out,
    RagFusion.reciprocal_rank_fusion
      (Ar := Q_arith) Scenario.dumps Scenario.loads Scenario.lists 60
    = Ok out
    /\ Permutation (map Scenario.dumps (map fst out))
                   (distinct (all_keys Scenario.dumps Scenario.lists))
    /\ List.length out = 4%nat
    /\ NoDup (map Scenario.dumps (map fst out)).
Proof.
  split; [exact scenario_keys_survive|]. split; [reflexivity|].
  destruct (output_keys_are_the_input_keys
              (Ar := Q_arith) Scenario.dumps Scenario.loads 60
              Scenario.lists scenario_keys_survive eq_refl)
    as (out & H1 & _ & H3 & _ & H5 & H6 & _).
  exists out. repeat split; assumption.
Defined.

Lemma output_scores_descend_witness :
  lt_asymmetric Q_arith /\ (0 < 60)%Z /\
  exists out,
    RagFusion.reciprocal_rank_fusion
      (Ar := Q_arith) Scenario.dumps Scenario.loads Scenario.lists 60
    = Ok out
    /\ forall i earlier later,
         nth_error (map snd out) i = Some earlier ->
         nth_error (map snd out) (S i) = Some later ->
         s_ge earlier later = true.
Proof.
  split; [exact Q_lt_asymmetric|]. split; [reflexivity|].
  exact (output_scores_descend
           Scenario.dumps Scenario.loads 60 Scenario.lists
           Q_lt_asymmetric eq_refl).
Defined.



Lemma scenario_scores_and_order_witness :
  NoDup [Scenario.dumps Scenario.A; Scenario.dumps Scenario.B;
         Scenario.dumps Scenario.C; Scenario.dumps Scenario.D]
  /\ ReciprocalRankFusion.reciprocal_rank_fusion
       (Ar := float_arith) Scenario.dumps Scenario.loads Scenario.lists 60
     = Ok [Scenario.A; Scenario.B; Scenario.C; Scenario.D].
Proof.
  split; [exact scenario_keys_distinct|].
  exact (proj2 (proj2 (proj2 (proj2
           (scenario_scores_and_order
              Scenario.dumps Scenario.loads
              Scenario.A Scenario.B Scenario.C Scenario.D
              scenario_keys_distinct))))).
Defined.

Lemma ties_keep_first_occurrence_order_witness :
  index_of "C" (all_keys Scenario.dumps Scenario.lists) = Some 2%nat
  /\ index_of "D" (all_keys Scenario.dumps Scenario.lists) = Some 5%nat
  /\ exists fs sa sb out,
       RagFusion.fused_scores
         (Ar := Q_arith) Scenario.dumps Scenario.lists 60 = Ok fs
       /\ dict_get "C" fs = Some sa
       /\ dict_get "D" fs = Some sb
       /\ RagFusion.reciprocal_rank_fusion
            (Ar := Q_arith) Scenario.dumps Scenario.loads Scenario.lists 60
          = Ok out
       /\ ((s_lt sa sb = false \/ (lt_asymmetric Q_arith /\ sa = sb)) ->
           exists i' j',
             (i' < j')%nat
             /\ nth_error out i' = Some (Scenario.loads "C", sa)
             /\ nth_error out j' = Some (Scenario.loads "D", sb)).
Proof.
  split; [reflexivity|]. split; [reflexivity|].
  destruct (ties_keep_first_occurrence_order
              (Ar := Q_arith) Scenario.dumps Scenario.loads 60
              Scenario.lists "C" "D" 2 5 eq_refl eq_refl eq_refl)
    as (fs & sa & sb & out & H1 & H2 & H3 & H4 & _ & H6).
  - lia.
  - exists fs, sa, sb, out. repeat split; assumption.
Defined.

Lemma representatives_are_round_trips_witness :
  (0 < 60)%Z /\
  exists out,
    RagFusion.reciprocal_rank_fusion
      (Ar := Q_arith) Scenario.dumps Scenario.loads Scenario.lists 60
    = Ok out
    /\ forall d, In d (map fst out) <->
         exists key first,
           first_occurrence Scenario.dumps key Scenario.lists = Some first
           /\ d = Scenario.loads (Scenario.dumps first).
Proof.
  split; [reflexivity|].
  destruct (representatives_are_round_trips
              (Ar := Q_arith) Scenario.dumps Scenario.loads 60
              Scenario.lists eq_refl)
    as (out & H1 & _ & H3 & _).
  exists out. split; assumption.
Defined.

(** * Further properties of the code *)

(** ** When the loops stop *)

Section ErrorFacts.
Context {score : Type} {Ar : Arith score} {Doc : Type}.
Variable dumps : Doc -> string.
Variable loads : string -> Doc.
Implicit Types (k : Z) (fs : dict score) (results : list (list Doc)).

Lemma visit_zero k fs rank doc :
  (Z.of_nat rank + k = 0)%Z ->
  RagFusion.visit dumps k fs rank doc = Raise ZeroDivisionError.
Proof.
  intros Hk. unfold RagFusion.visit.
  set (d1 := if dict_mem (dumps doc) fs then fs
             else dict_set (dumps doc) s_zero fs).
  assert (H : exists v, dict_get (dumps doc) d1 = Some v).
  { unfold d1, dict_mem.
    destruct (dict_get (dumps doc) fs) as [v|] eqn:E.
    - now exists v.
    - exists s_zero. apply dict_get_set_same. }
  destruct H as [v ->]. now rewrite Hk.
Qed.

Lemma for_docs_safe k items fs :
  (forall item, In item items -> (Z.of_nat (fst item) + k <> 0)%Z) ->
  RagFusion.for_docs dumps k fs items
  = Ok (fold_left bump (map (event dumps k) items) fs).
Proof.
  revert fs.
  induction items as [|[rank doc] items IH]; intros fs H; simpl.
  - reflexivity.
  - rewrite visit_bump by (apply (H (rank, doc)); now left).
    simpl. apply IH. intros item Hin. apply H. now right.
Qed.

Lemma for_docs_zero k items fs :
  (exists item, In item items /\ (Z.of_nat (fst item) + k = 0)%Z) ->
  RagFusion.for_docs dumps k fs items = Raise ZeroDivisionError.
Proof.
  revert fs.
  induction items as [|[rank doc] items IH]; intros fs [item [Hin Hz]].
  - contradiction.
  - simpl. destruct (Z.eq_dec (Z.of_nat rank + k) 0) as [E|E].
    + now rewrite visit_zero.
    + rewrite visit_bump by assumption. simpl. apply IH.
      exists item. split; [|assumption].
      destruct Hin as [<-|Hin]; [contradiction|assumption].
Qed.

Lemma enumerate_from_ranks start (docs : list Doc) item :
  In item (enumerate_from start docs) ->
  (start <= fst item < start + List.length docs)%nat.
Proof.
  revert start. induction docs as [|d docs IH]; intros start H.
  - contradiction.
  - destruct H as [<-|H]; simpl; [lia|].
    apply IH in H. lia.
Qed.

Lemma enumerate_from_reaches start (docs : list Doc) rank :
  (start <= rank < start + List.length docs)%nat ->
  exists d, In (rank, d) (enumerate_from start docs).
Proof.
  revert start. induction docs as [|d docs IH]; intros start H; simpl in H.
  - lia.
  - destruct (Nat.eq_dec rank start) as [->|Hne].
    + exists d. now left.
    + destruct (IH (S start)) as [d' Hd']; [lia|].
      exists d'. now right.
Qed.

Lemma hits_zero_spec k (docs : list Doc) :
  hits_zero k docs = true <->
  exists item, In item (enumerate docs) /\ (Z.of_nat (fst item) + k = 0)%Z.
Proof.
  unfold hits_zero. rewrite Bool.andb_true_iff, Z.leb_le, Z.ltb_lt. split.
  - intros [Hk Hlen].
    destruct (enumerate_from_reaches 0 docs (Z.to_nat (- k))) as [d Hd];
      [lia|].
    exists (Z.to_nat (- k), d). split; [exact Hd|]. simpl. lia.
  - intros [item [Hin Hz]]. apply enumerate_from_ranks in Hin. lia.
Qed.

Lemma for_results_any k results fs :
  RagFusion.for_results dumps k fs results
  = if divides_by_zero k results then Raise ZeroDivisionError
    else Ok (fold_left bump (events dumps k results) fs).
Proof.
  revert fs. induction results as [|docs results IH]; intros fs; simpl.
  - reflexivity.
  - destruct (hits_zero k docs) eqn:Hz; simpl.
    + rewrite for_docs_zero by now apply hits_zero_spec.
      reflexivity.
    + rewrite for_docs_safe.
      * simpl. rewrite IH, fold_left_app. reflexivity.
      * intros item Hin E.
        assert (H : hits_zero k docs = true)
          by (apply hits_zero_spec; now exists item).
        congruence.
Qed.

Lemma fused_scores_any k results :
  RagFusion.fused_scores dumps results k
  = if divides_by_zero k results then Raise ZeroDivisionError
    else Ok (map (fun key =>
                    (key, score_sum k (occurrence_ranks dumps key results)))
                 (distinct (all_keys dumps results))).
Proof.
  unfold RagFusion.fused_scores. rewrite for_results_any.
  destruct (divides_by_zero k results); [reflexivity|].
  rewrite fold_bump. unfold table. rewrite events_keys. f_equal.
  apply map_ext. intros key. f_equal. apply total_events.
Qed.


(** X2: whenever the loops finish, for any k, the dict holds the keys of
    the input in the order of their first occurrences, each once, and
    gives each the sum of 1 / (rank + k) over its occurrences. *)
Theorem finished_loops_leave_the_table k results fs :
  RagFusion.fused_scores dumps results k = Ok fs ->
  ReciprocalRankFusion.fused_scores dumps results k = Ok fs
  /\ dict_keys fs = distinct (all_keys dumps results)
  /\ NoDup (dict_keys fs)
  /\ forall key,
       In key (all_keys dumps results) ->
       dict_get key fs
       = Some (score_sum k (occurrence_ranks dumps key results)).
Proof.
  intros H. split; [exact H|].
  rewrite fused_scores_any in H.
  destruct (divides_by_zero k results); [discriminate|].
  injection H as <-. unfold dict_keys. rewrite map_map; simpl.
  rewrite map_id. split; [reflexivity|].
  split; [apply distinct_NoDup|].
  intros key Hin.
  apply (dict_get_table key
           (fun key => score_sum k (occurrence_ranks dumps key results))).
  now apply distinct_In.
Qed.

Lemma for_results_skips_empty k results fs :
  RagFusion.for_results dumps k fs (filter nonempty results)
  = RagFusion.for_results dumps k fs results.
Proof.
  revert fs. induction results as [|docs results IH]; intros fs.
  - reflexivity.
  - destruct docs as [|d docs]; simpl.
    + apply IH.
    + destruct (RagFusion.visit dumps k fs 0 d) as [fs1|e]; simpl;
        [|reflexivity].
      destruct (RagFusion.for_docs dumps k fs1 (enumerate_from 1 docs))
        as [fs2|e]; simpl; [apply IH|reflexivity].
Qed.

(** X3: ranked lists that are empty change nothing: with or without
    them, for every k, each fuser returns the same result or raises the
    same exception. *)
Theorem empty_lists_change_nothing k results :
  RagFusion.reciprocal_rank_fusion dumps loads (filter nonempty results) k
  = RagFusion.reciprocal_rank_fusion dumps loads results k
  /\ ReciprocalRankFusion.reciprocal_rank_fusion
       dumps loads (filter nonempty results) k
     = ReciprocalRankFusion.reciprocal_rank_fusion dumps loads results k.
Proof.
  assert (H : RagFusion.reciprocal_rank_fusion
                dumps loads (filter nonempty results) k
              = RagFusion.reciprocal_rank_fusion dumps loads results k).
  { unfold RagFusion.reciprocal_rank_fusion, RagFusion.ranked,
      RagFusion.fused_scores.
    now rewrite for_results_skips_empty. }
  split; [exact H|]. now rewrite !projection_of_pairs, H.
Qed.
End ErrorFacts.

(** ** One visit of the inner loop *)

Section VisitFacts.
Context {score : Type} {Ar : Arith score} {Doc : Type}.
Variable dumps : Doc -> string.
Implicit Types (k : Z) (fs : dict score) (key : string).

Lemma dict_keys_set key (v : score) fs :
  dict_keys (dict_set key v fs)
  = if dict_mem key fs then dict_keys fs else dict_keys fs ++ [key].
Proof.
  unfold dict_keys, dict_mem.
  induction fs as [|[key' v'] fs IH]; simpl; [reflexivity|].
  destruct (String.eqb key key'); simpl; [reflexivity|].
  rewrite IH. now destruct (dict_get key fs).
Qed.

Lemma dict_get_set_other key key' (v : score) fs :
  key' <> key -> dict_get key' (dict_set key v fs) = dict_get key' fs.
Proof.
  intros Hne. induction fs as [|[key'' v'] fs IH]; simpl.
  - now destruct (String.eqb_spec key' key).
  - destruct (String.eqb_spec key key'') as [->|_]; simpl.
    + now destruct (String.eqb_spec key' key'').
    + now rewrite IH.
Qed.

(** X4: a visit that returns leaves every other entry of the dict as it
    was, keeps the order of the keys, appends the key of the document
    when it is new, and adds 1 / (rank + k) to the score of that key,
    counted from 0 when the key is new. *)
Theorem visit_touches_one_entry k fs rank (doc : Doc) fs' :
  RagFusion.visit dumps k fs rank doc = Ok fs' ->
  ReciprocalRankFusion.visit dumps k fs rank doc = Ok fs'
  /\ dict_keys fs'
     = (if dict_mem (dumps doc) fs then dict_keys fs
        else dict_keys fs ++ [dumps doc])
  /\ dict_get (dumps doc) fs'
     = Some (s_add (match dict_get (dumps doc) fs with
                    | Some previous_score => previous_score
                    | None => s_zero
                    end)
                   (s_recip (Z.of_nat rank + k)))
  /\ forall key, key <> dumps doc -> dict_get key fs' = dict_get key fs.
Proof.
  intros H. split; [exact H|].
  destruct (Z.eq_dec (Z.of_nat rank + k) 0) as [E|E];
    [rewrite visit_zero in H by assumption; discriminate|].
  rewrite visit_bump in H by assumption. injection H as <-.
  unfold bump, event, dict_mem; simpl.
  destruct (dict_get (dumps doc) fs) as [v|] eqn:Hget.
  - rewrite Hget. split; [|split].
    + rewrite dict_keys_set. unfold dict_mem. now rewrite Hget.
    + apply dict_get_set_same.
    + intros key Hne. now apply dict_get_set_other.
  - rewrite dict_get_set_same. split; [|split].
    + rewrite !dict_keys_set. unfold dict_mem.
      now rewrite dict_get_set_same, Hget.
    + apply dict_get_set_same.
    + intros key Hne. now rewrite !dict_get_set_other.
Qed.
End VisitFacts.

(** ** Scores as exact numbers *)

Section ExactFacts.
Context {Doc : Type}.
Variable dumps : Doc -> string.
Variable k : Z.
Hypothesis k_pos : (0 < k)%Z.
Implicit Types (results : list (list Doc)) (key : string) (fs : dict Q).







End ExactFacts.

Section ExactSums.
Context {Doc : Type}.
Variable dumps : Doc -> string.
Variable k : Z.
Hypothesis k_pos : (0 < k)%Z.
Implicit Types (results : list (list Doc)) (key : string) (fs : dict Q).











End ExactSums.

(** ** The order of the output, in exact arithmetic *)

Section ExactOrder.
Context {Doc : Type}.
Variable dumps : Doc -> string.
Variable loads : string -> Doc.
Implicit Types (results : list (list Doc)) (key : string).










End ExactOrder.

(** ** [main] of [reciprocal_rank_fusion.py] *)

Section MainFacts.
Context {score : Type} {Ar : Arith score}.
Variable dumps : json -> string.
Variable loads : string -> json.






End MainFacts.

(** ** Splitting the text of the model into queries *)

Lemma split_on_nonempty (sep : ascii) (s : string) : split_on sep s <> [].
Proof.
  destruct s as [|c s]; simpl; [discriminate|].
  destruct (Ascii.eqb c sep); [discriminate|].
  destruct (split_on sep s); discriminate.
Qed.

Lemma split_on_join (sep : ascii) (s : string) :
  String.concat (String sep EmptyString) (split_on sep s) = s.
Proof.
  induction s as [|c s IH]; simpl; [reflexivity|].
  pose proof (split_on_nonempty sep s) as Hne.
  destruct (Ascii.eqb_spec c sep) as [->|_].
  - destruct (split_on sep s) as [|piece rest]; [congruence|].
    cbn [String.concat]. cbn [String.concat] in IH.
    simpl. f_equal. exact IH.
  - destruct (split_on sep s) as [|piece rest]; [congruence|].
    destruct rest as [|piece' rest]; simpl in *; now rewrite IH.
Qed.

Lemma split_on_length (sep : ascii) (s : string) :
  List.length (split_on sep s) = S (count_char sep s).
Proof.
  induction s as [|c s IH]; simpl; [reflexivity|].
  pose proof (split_on_nonempty sep s) as Hne.
  destruct (Ascii.eqb c sep); simpl.
  - now rewrite IH.
  - destruct (split_on sep s) as [|piece rest]; [congruence|].
    simpl in *. exact IH.
Qed.

Lemma split_on_pieces (sep : ascii) (s : string) :
  Forall (fun piece => count_char sep piece = 0%nat) (split_on sep s).
Proof.
  induction s as [|c s IH]; simpl.
  - repeat constructor.
  - destruct (Ascii.eqb c sep) eqn:E.
    + constructor; [reflexivity | exact IH].
    + destruct (split_on sep s) as [|piece rest].
      * repeat constructor. simpl. now rewrite E.
      * inversion IH as [|? ? Hp Hr]; subst.
        constructor; [|assumption]. simpl. now rewrite E.
Qed.

(** ** The script [rag_fusion.py] *)

Section RagFusionScriptFacts.
Variable chain : string -> string + string.

(** X12: whatever the arguments and whatever the chain does, the script
    prints exactly one payload and ends with status 0 or 1: 0 when and
    only when the payload is the success payload.  An exception of the
    chain is caught and reported; the [sys.exit] of the handler is not
    caught again. *)
Theorem rag_fusion_prints_one_payload (argv : list string) :
  exists payload,
    snd (RagFusionScript.script chain argv) = [payload]
    /\ (fst (RagFusionScript.script chain argv) = 0%Z
        \/ fst (RagFusionScript.script chain argv) = 1%Z)
    /\ (fst (RagFusionScript.script chain argv) = 0%Z
        <-> Process.is_success payload = true).
Proof.
  unfold RagFusionScript.script, RagFusionScript.main,
    RagFusionScript.generate_rag_fusion_queries, Process.run,
    Process.try_except, Process.io_bind, Process.call, Process.print,
    Process.sys_exit, Process.ret.
  destruct (List.length argv <? 2)%nat.
  - eexists. simpl. split; [reflexivity|]. split; [now right|].
    split; discriminate.
  - destruct (chain (nth 1 argv "")) as [msg|text]; eexists; simpl.
    + split; [reflexivity|]. split; [now right|]. split; discriminate.
    + split; [reflexivity|]. split; [now left|]. split; reflexivity.
Qed.

(** X13: with a query on the command line and a chain that returns a
    text, the script ends with status 0 after printing the success
    payload with the queries: the pieces of the text between its line
    feeds, one more than there are line feeds, none containing a line
    feed, and joined by line feeds they give the text back.  Arguments
    after the query are not read. *)
Theorem rag_fusion_queries_are_the_lines (argv : list string)
    (text : string) :
  (2 <= List.length argv)%nat ->
  chain (nth 1 argv "") = inr text ->
  exists queries,
    RagFusionScript.script chain argv
    = (0%Z, [JDict [("success", JBool true);
                    ("queries", JList (map JStr queries))]])
    /\ String.concat (String newline EmptyString) queries = text
    /\ List.length queries = S (count_char newline text)
    /\ Forall (fun query => count_char newline query = 0%nat) queries.
Proof.
  intros Hlen Hchain. exists (split_on newline text).
  split; [|split; [apply split_on_join
                  |split; [apply split_on_length|apply split_on_pieces]]].
  unfold RagFusionScript.script, RagFusionScript.main,
    RagFusionScript.generate_rag_fusion_queries, Process.run,
    Process.try_except, Process.io_bind, Process.call, Process.print,
    Process.sys_exit, Process.ret.
  destruct (Nat.ltb_spec (List.length argv) 2) as [H|_]; [lia|].
  rewrite Hchain. reflexivity.
Qed.

(** X14: without a query on the command line the chain is not asked:
    the script prints the payload 'No filename provided' and ends with
    status 1; and when the chain raises, the script prints the text of
    the exception as the error payload and ends with status 1. *)
Theorem rag_fusion_reports_failures (argv : list string) :
  ((List.length argv < 2)%nat ->
   RagFusionScript.script chain argv
   = (1%Z, [Process.error_payload "No filename provided"]))
  /\ (forall msg,
        (2 <= List.length argv)%nat ->
        chain (nth 1 argv "") = inl msg ->
        RagFusionScript.script chain argv
        = (1%Z, [Process.error_payload msg])).
Proof.
  unfold RagFusionScript.script, RagFusionScript.main,
    RagFusionScript.generate_rag_fusion_queries, Process.run,
    Process.try_except, Process.io_bind, Process.call, Process.print,
    Process.sys_exit, Process.ret.
  split.
  - intros H. destruct (Nat.ltb_spec (List.length argv) 2); [|lia].
    reflexivity.
  - intros msg H Hchain.
    destruct (Nat.ltb_spec (List.length argv) 2); [lia|].
    rewrite Hchain. reflexivity.
Qed.
End RagFusionScriptFacts.

(** ** The script [semantic_split.py] *)

Section SemanticSplitFacts.
Variable upload_exists : string -> bool.
Variable load_and_split : string -> string + list SemanticSplit.document.

Lemma chunks_of_from (split_docs : list SemanticSplit.document)
    (chunks : list json) :
  fold_left (fun chunks doc => chunks ++ [SemanticSplit.chunk_of doc])
            split_docs chunks
  = chunks ++ map SemanticSplit.chunk_of split_docs.
Proof.
  revert chunks. induction split_docs as [|doc docs IH]; intros chunks;
    simpl.
  - now rewrite app_nil_r.
  - rewrite IH, <- app_assoc. reflexivity.
Qed.

(** X15: whatever the arguments, the file system and the loader do, the
    script prints exactly one payload and ends with status 0 or 1: 0
    when and only when the payload is the success payload.  The
    [sys.exit] calls inside the [try] are not caught by its handler. *)
Theorem semantic_split_prints_one_payload (argv : list string) :
  exists payload,
    snd (SemanticSplit.script upload_exists load_and_split argv)
    = [payload]
    /\ (fst (SemanticSplit.script upload_exists load_and_split argv) = 0%Z
        \/ fst (SemanticSplit.script upload_exists load_and_split argv)
           = 1%Z)
    /\ (fst (SemanticSplit.script upload_exists load_and_split argv) = 0%Z
        <-> Process.is_success payload = true).
Proof.
  unfold SemanticSplit.script, SemanticSplit.main, Process.run,
    Process.try_except, Process.io_bind, Process.call, Process.print,
    Process.sys_exit, Process.ret.
  destruct (List.length argv <? 2)%nat.
  - eexists. simpl. split; [reflexivity|]. split; [now right|].
    split; discriminate.
  - destruct (upload_exists (nth 1 argv "")); simpl.
    + destruct (load_and_split (nth 1 argv "")) as [msg|docs];
        eexists; simpl.
      * split; [reflexivity|]. split; [now right|]. split; discriminate.
      * split; [reflexivity|]. split; [now left|]. split; reflexivity.
    + eexists. split; [reflexivity|]. split; [now right|].
      split; discriminate.
Qed.

(** X16: for a file that exists and a loader that returns, the script
    ends with status 0 after printing the success payload whose chunks
    are one per split document, in the order of the documents, each
    with the text and the metadata of its document. *)
Theorem semantic_split_chunks_follow_the_documents (argv : list string)
    (split_docs : list SemanticSplit.document) :
  (2 <= List.length argv)%nat ->
  upload_exists (nth 1 argv "") = true ->
  load_and_split (nth 1 argv "") = inr split_docs ->
  exists chunks,
    SemanticSplit.script upload_exists load_and_split argv
    = (0%Z, [JDict [("success", JBool true); ("chunks", JList chunks)]])
    /\ List.length chunks = List.length split_docs
    /\ forall i doc,
         nth_error split_docs i = Some doc ->
         nth_error chunks i
         = Some (JDict [("text", JStr (SemanticSplit.page_content doc));
                        ("metadata", SemanticSplit.metadata doc)]).
Proof.
  intros Hlen Hex Hload.
  exists (map SemanticSplit.chunk_of split_docs).
  split; [|split].
  - unfold SemanticSplit.script, SemanticSplit.main, Process.run,
      Process.try_except, Process.io_bind, Process.call, Process.print,
      Process.sys_exit, Process.ret.
    destruct (Nat.ltb_spec (List.length argv) 2) as [H|_]; [lia|].
    rewrite Hex, Hload. simpl.
    unfold SemanticSplit.chunks_of. now rewrite chunks_of_from.
  - apply length_map.
  - intros i doc Hi. rewrite nth_error_map, Hi. reflexivity.
Qed.
End SemanticSplitFacts.

(** X17: for a file that does not exist under the uploads directory the
    loader is not asked: whatever it would do, the script prints the
    payload 'PDF file not found' with the name and ends with status
    1. *)
Theorem semantic_split_does_not_load_a_missing_file
    (upload_exists : string -> bool)
    (load_and_split : string -> string + list SemanticSplit.document)
    (argv : list string) :
  (2 <= List.length argv)%nat ->
  upload_exists (nth 1 argv "") = false ->
  SemanticSplit.script upload_exists load_and_split argv
  = (1%Z, [Process.error_payload
             ("PDF file not found: " ++ nth 1 argv "")]).
Proof.
  intros Hlen Hex.
  unfold SemanticSplit.script, SemanticSplit.main, Process.run,
    Process.try_except, Process.io_bind, Process.call, Process.print,
    Process.sys_exit, Process.ret.
  destruct (Nat.ltb_spec (List.length argv) 2) as [H|_]; [lia|].
  rewrite Hex. reflexivity.
Qed.

(** ** The further properties at concrete inputs *)

Lemma finished_loops_leave_the_table_witness :
  exists fs,
    RagFusion.fused_scores
      (Ar := Q_arith) Scenario.dumps Scenario.lists (-5) = Ok fs
    /\ dict_keys fs = ["A"; "B"; "C"; "D"].
Proof.
  destruct (RagFusion.fused_scores
              (Ar := Q_arith) Scenario.dumps Scenario.lists (-5))
    as [fs|e] eqn:H; [|vm_compute in H; discriminate].
  exists fs. split; [reflexivity|].
  destruct (finished_loops_leave_the_table
              Scenario.dumps (-5) Scenario.lists fs H) as (_ & Hkeys & _).
  rewrite Hkeys. reflexivity.
Defined.

Lemma visit_touches_one_entry_witness :
  exists fs',
    RagFusion.visit (Ar := Q_arith) Scenario.dumps 60 [] 0 Scenario.A
    = Ok fs'
    /\ dict_keys fs' = ["A"]
    /\ dict_get "A" fs' = Some (s_add s_zero (s_recip 60)).
Proof.
  destruct (RagFusion.visit (Ar := Q_arith) Scenario.dumps 60 [] 0
              Scenario.A) as [fs'|e] eqn:H;
    [|vm_compute in H; discriminate].
  exists fs'. split; [reflexivity|].
  destruct (visit_touches_one_entry Scenario.dumps 60 [] 0 Scenario.A fs' H)
    as (_ & Hkeys & Hget & _).
  split; [exact Hkeys | exact Hget].
Defined.






Lemma rag_fusion_queries_are_the_lines_witness :
  exists queries,
    RagFusionScript.script
      (fun _ => inr ("first" ++ String newline "second")%string) ["prog"; "query"]
    = (0%Z, [JDict [("success", JBool true);
                    ("queries", JList (map JStr queries))]])
    /\ String.concat (String newline EmptyString) queries
       = ("first" ++ String newline "second")%string
    /\ List.length queries = 2%nat.
Proof.
  destruct (rag_fusion_queries_are_the_lines
              (fun _ => inr ("first" ++ String newline "second")%string)
              ["prog"; "query"] ("first" ++ String newline "second")%string)
    as (queries & H1 & H2 & H3 & _).
  - simpl. lia.
  - reflexivity.
  - exists queries. split; [exact H1|]. split; [exact H2 | exact H3].
Defined.

Lemma rag_fusion_reports_failures_witness :
  RagFusionScript.script (fun _ => inl "timeout") ["prog"]
  = (1%Z, [Process.error_payload "No filename provided"])
  /\ RagFusionScript.script (fun _ => inl "timeout") ["prog"; "query"]
     = (1%Z, [Process.error_payload "timeout"]).
Proof.
  split.
  - apply (proj1 (rag_fusion_reports_failures
                    (fun _ => inl "timeout") ["prog"])).
    simpl. lia.
  - apply (proj2 (rag_fusion_reports_failures
                    (fun _ => inl "timeout") ["prog"; "query"])).
    + simpl. lia.
    + reflexivity.
Defined.

Lemma semantic_split_chunks_follow_the_documents_witness :
  exists chunks,
    SemanticSplit.script
      (fun _ => true)
      (fun _ => inr [{| SemanticSplit.page_content := "text";
                        SemanticSplit.metadata := JNull |}])
      ["prog"; "a.pdf"]
    = (0%Z, [JDict [("success", JBool true); ("chunks", JList chunks)]])
    /\ List.length chunks = 1%nat.
Proof.
  destruct (semantic_split_chunks_follow_the_documents
              (fun _ => true)
              (fun _ => inr [{| SemanticSplit.page_content := "text";
                                SemanticSplit.metadata := JNull |}])
              ["prog"; "a.pdf"]
              [{| SemanticSplit.page_content := "text";
                  SemanticSplit.metadata := JNull |}])
    as (chunks & H1 & H2 & _).
  - simpl. lia.
  - reflexivity.
  - reflexivity.
  - exists chunks. split; [exact H1 | exact H2].
Defined.

Lemma semantic_split_does_not_load_a_missing_file_witness :
  SemanticSplit.script (fun _ => false) (fun _ => inl "unused")
    ["prog"; "a.pdf"]
  = (1%Z, [Process.error_payload "PDF file not found: a.pdf"]).
Proof.
  apply (semantic_split_does_not_load_a_missing_file
           (fun _ => false) (fun _ => inl "unused") ["prog"; "a.pdf"]).
  - simpl. lia.
  - reflexivity.
Defined.
